(** * SnowSim: the per-particle material update of [Particle.cpp]

    A shallow embedding of [Particle::Particle], [Particle::updateGradient],
    [Particle::cauchyStress] and [Particle::deltaForce], and the properties
    the specification states about them.

    Numbers.  The source computes in C++ [float].  Every property below is a
    statement of exact arithmetic, so a [float] is modelled as a real number
    ([R]) and rounding and overflow are out of the model.  A division by
    zero gives an infinity or a NaN, which is no real number: the division
    of [deltaForce] is [divide], which has no result there.

    State.  A method of [Particle] reads and writes the fields of [this]; it
    is a computation in the state monad [St] over the record [Particle], one
    monadic step per statement of the source. *)

From Stdlib Require Import Reals Lra Psatz List.
Import ListNotations.

Local Open Scope bool_scope.
Local Open Scope R_scope.

(** ** Vector2f and Matrix2f *)

(** Modelled from the spec: the classes [Vector2f] and [Matrix2f] (their
    header and implementation are not part of [Particle.cpp]).  A vector is
    its two components, a matrix its four entries; [mIJ a] is what the
    source writes [a[I][J]], read as row [I], column [J], and the
    four-argument constructor fills [a[0][0]], [a[0][1]], [a[1][0]],
    [a[1][1]] in this order. *)
Record Vector2f : Type := mkVector2f { v0 : R; v1 : R }.

Record Matrix2f : Type := mkMatrix2f { m00 : R; m01 : R; m10 : R; m11 : R }.

Declare Scope mat_scope.
Delimit Scope mat_scope with mat.

Module Vec.

(** Modelled from the spec: [Vector2f(c)]: both components set to [c]. *)
Definition fill (c : R) : Vector2f := mkVector2f c c.

(** Modelled from the spec: [v[i]] for a loop index; the source uses no
    index past 1. *)
Definition get (v : Vector2f) (i : nat) : R :=
  match i with O => v0 v | _ => v1 v end.

(** Modelled from the spec: [v[i] = x]. *)
Definition set (v : Vector2f) (i : nat) (x : R) : Vector2f :=
  match i with
  | O => mkVector2f x (v1 v)
  | _ => mkVector2f (v0 v) x
  end.

(** Modelled from the spec: [c * v]. *)
Definition scale (c : R) (v : Vector2f) : Vector2f :=
  mkVector2f (c * v0 v) (c * v1 v).

(** Modelled from the spec: [u + v]. *)
Definition add (u v : Vector2f) : Vector2f :=
  mkVector2f (v0 u + v0 v) (v1 u + v1 v).

End Vec.

Module Mat.

(** Modelled from the spec: [loadIdentity()]. *)
Definition identity : Matrix2f := mkMatrix2f 1 0 0 1.

(** The zero matrix. *)
Definition zero : Matrix2f := mkMatrix2f 0 0 0 0.

(** Modelled from the spec: [a * b], the matrix product. *)
Definition mul (a b : Matrix2f) : Matrix2f :=
  mkMatrix2f (m00 a * m00 b + m01 a * m10 b) (m00 a * m01 b + m01 a * m11 b)
             (m10 a * m00 b + m11 a * m10 b) (m10 a * m01 b + m11 a * m11 b).

(** Modelled from the spec: [a * v], a matrix applied to a vector. *)
Definition apply (a : Matrix2f) (v : Vector2f) : Vector2f :=
  mkVector2f (m00 a * v0 v + m01 a * v1 v) (m10 a * v0 v + m11 a * v1 v).

(** Modelled from the spec: [c * a] and [a *= c]. *)
Definition scale (c : R) (a : Matrix2f) : Matrix2f :=
  mkMatrix2f (c * m00 a) (c * m01 a) (c * m10 a) (c * m11 a).

(** Modelled from the spec: [a + b] and [a += b]. *)
Definition add (a b : Matrix2f) : Matrix2f :=
  mkMatrix2f (m00 a + m00 b) (m01 a + m01 b) (m10 a + m10 b) (m11 a + m11 b).

(** Modelled from the spec: [a - b]. *)
Definition sub (a b : Matrix2f) : Matrix2f :=
  mkMatrix2f (m00 a - m00 b) (m01 a - m01 b) (m10 a - m10 b) (m11 a - m11 b).

(** Modelled from the spec: [a.transpose()]. *)
Definition transpose (a : Matrix2f) : Matrix2f :=
  mkMatrix2f (m00 a) (m10 a) (m01 a) (m11 a).

(** Modelled from the spec: [a.determinant()]. *)
Definition determinant (a : Matrix2f) : R :=
  m00 a * m11 a - m01 a * m10 a.

(** Modelled from the spec: [a.cofactor()]: the matrix of signed minors. *)
Definition cofactor (a : Matrix2f) : Matrix2f :=
  mkMatrix2f (m11 a) (- m10 a) (- m01 a) (m00 a).

(** Modelled from the spec: [a.frobeniusInnerProduct(b)]: the sum of the entrywise products. *)
Definition frobeniusInnerProduct (a b : Matrix2f) : R :=
  m00 a * m00 b + m01 a * m01 b + m10 a * m10 b + m11 a * m11 b.

(** Modelled from the spec: [a.diag_sum(c)]: [a + c * I], only the diagonal changes. *)
Definition diag_sum (a : Matrix2f) (c : R) : Matrix2f :=
  mkMatrix2f (m00 a + c) (m01 a) (m10 a) (m11 a + c).

(** Modelled from the spec: [a.diag_product(v)]: [a * diag(v)], column [j] scaled by [v[j]]. *)
Definition diag_product (a : Matrix2f) (v : Vector2f) : Matrix2f :=
  mkMatrix2f (m00 a * v0 v) (m01 a * v1 v) (m10 a * v0 v) (m11 a * v1 v).

(** Modelled from the spec: [a.diag_product_inv(v)]: [a * diag(v)^-1],
    column [j] divided by [v[j]]. *)
Definition diag_product_inv (a : Matrix2f) (v : Vector2f) : Matrix2f :=
  mkMatrix2f (m00 a / v0 v) (m01 a / v1 v) (m10 a / v0 v) (m11 a / v1 v).

(** Modelled from the spec: [u.dyadic_product(w)]: the outer product [u * w^T]. *)
Definition dyadic_product (u w : Vector2f) : Matrix2f :=
  mkMatrix2f (v0 u * v0 w) (v0 u * v1 w) (v1 u * v0 w) (v1 u * v1 w).

(** Modelled from the spec: [diag(v)], the diagonal matrix of the specification's formulas. *)
Definition diag (v : Vector2f) : Matrix2f := mkMatrix2f (v0 v) 0 0 (v1 v).

(** Modelled from the spec: a matrix is orthogonal when its transpose is its inverse. *)
Definition orthogonal (a : Matrix2f) : Prop :=
  mul (transpose a) a = identity /\ mul a (transpose a) = identity.

End Mat.

Infix "**" := Mat.mul (at level 40, left associativity) : mat_scope.
Infix "+m" := Mat.add (at level 50, left associativity) : mat_scope.
Infix "-m" := Mat.sub (at level 50, left associativity) : mat_scope.
Infix ".*" := Mat.scale (at level 35, right associativity) : mat_scope.

Local Open Scope mat_scope.

(** ** The particle *)

(** The fields of [class Particle] that [Particle.cpp] reads or writes. *)
Record Particle : Type := mkParticle {
  position : Vector2f;
  velocity : Vector2f;
  mass : R;
  volume : R;
  lambda_s : R;
  mu_s : R;
  lambda : R;
  mu : R;
  def_elastic : Matrix2f;
  def_plastic : Matrix2f;
  det_elastic : R;
  det_plastic : R;
  velocity_gradient : Matrix2f;
  svd_w : Matrix2f;
  svd_e : Vector2f;
  svd_v : Matrix2f;
  polar_r : Matrix2f;
  polar_s : Matrix2f
}.

(** Assignment to one field, [this->f = x]; the other fields keep their
    values. *)
Definition set_position (x : Vector2f) (p : Particle) : Particle :=
  mkParticle x (velocity p) (mass p) (volume p) (lambda_s p) (mu_s p)
    (lambda p) (mu p) (def_elastic p) (def_plastic p) (det_elastic p)
    (det_plastic p) (velocity_gradient p) (svd_w p) (svd_e p) (svd_v p)
    (polar_r p) (polar_s p).

Definition set_velocity (x : Vector2f) (p : Particle) : Particle :=
  mkParticle (position p) x (mass p) (volume p) (lambda_s p) (mu_s p)
    (lambda p) (mu p) (def_elastic p) (def_plastic p) (det_elastic p)
    (det_plastic p) (velocity_gradient p) (svd_w p) (svd_e p) (svd_v p)
    (polar_r p) (polar_s p).

Definition set_mass (x : R) (p : Particle) : Particle :=
  mkParticle (position p) (velocity p) x (volume p) (lambda_s p) (mu_s p)
    (lambda p) (mu p) (def_elastic p) (def_plastic p) (det_elastic p)
    (det_plastic p) (velocity_gradient p) (svd_w p) (svd_e p) (svd_v p)
    (polar_r p) (polar_s p).

Definition set_volume (x : R) (p : Particle) : Particle :=
  mkParticle (position p) (velocity p) (mass p) x (lambda_s p) (mu_s p)
    (lambda p) (mu p) (def_elastic p) (def_plastic p) (det_elastic p)
    (det_plastic p) (velocity_gradient p) (svd_w p) (svd_e p) (svd_v p)
    (polar_r p) (polar_s p).

Definition set_lambda_s (x : R) (p : Particle) : Particle :=
  mkParticle (position p) (velocity p) (mass p) (volume p) x (mu_s p)
    (lambda p) (mu p) (def_elastic p) (def_plastic p) (det_elastic p)
    (det_plastic p) (velocity_gradient p) (svd_w p) (svd_e p) (svd_v p)
    (polar_r p) (polar_s p).

Definition set_mu_s (x : R) (p : Particle) : Particle :=
  mkParticle (position p) (velocity p) (mass p) (volume p) (lambda_s p) x
    (lambda p) (mu p) (def_elastic p) (def_plastic p) (det_elastic p)
    (det_plastic p) (velocity_gradient p) (svd_w p) (svd_e p) (svd_v p)
    (polar_r p) (polar_s p).

Definition set_lambda (x : R) (p : Particle) : Particle :=
  mkParticle (position p) (velocity p) (mass p) (volume p) (lambda_s p)
    (mu_s p) x (mu p) (def_elastic p) (def_plastic p) (det_elastic p)
    (det_plastic p) (velocity_gradient p) (svd_w p) (svd_e p) (svd_v p)
    (polar_r p) (polar_s p).

Definition set_mu (x : R) (p : Particle) : Particle :=
  mkParticle (position p) (velocity p) (mass p) (volume p) (lambda_s p)
    (mu_s p) (lambda p) x (def_elastic p) (def_plastic p) (det_elastic p)
    (det_plastic p) (velocity_gradient p) (svd_w p) (svd_e p) (svd_v p)
    (polar_r p) (polar_s p).

Definition set_def_elastic (x : Matrix2f) (p : Particle) : Particle :=
  mkParticle (position p) (velocity p) (mass p) (volume p) (lambda_s p)
    (mu_s p) (lambda p) (mu p) x (def_plastic p) (det_elastic p)
    (det_plastic p) (velocity_gradient p) (svd_w p) (svd_e p) (svd_v p)
    (polar_r p) (polar_s p).

Definition set_def_plastic (x : Matrix2f) (p : Particle) : Particle :=
  mkParticle (position p) (velocity p) (mass p) (volume p) (lambda_s p)
    (mu_s p) (lambda p) (mu p) (def_elastic p) x (det_elastic p)
    (det_plastic p) (velocity_gradient p) (svd_w p) (svd_e p) (svd_v p)
    (polar_r p) (polar_s p).

Definition set_det_elastic (x : R) (p : Particle) : Particle :=
  mkParticle (position p) (velocity p) (mass p) (volume p) (lambda_s p)
    (mu_s p) (lambda p) (mu p) (def_elastic p) (def_plastic p) x
    (det_plastic p) (velocity_gradient p) (svd_w p) (svd_e p) (svd_v p)
    (polar_r p) (polar_s p).

Definition set_det_plastic (x : R) (p : Particle) : Particle :=
  mkParticle (position p) (velocity p) (mass p) (volume p) (lambda_s p)
    (mu_s p) (lambda p) (mu p) (def_elastic p) (def_plastic p)
    (det_elastic p) x (velocity_gradient p) (svd_w p) (svd_e p) (svd_v p)
    (polar_r p) (polar_s p).

Definition set_velocity_gradient (x : Matrix2f) (p : Particle) : Particle :=
  mkParticle (position p) (velocity p) (mass p) (volume p) (lambda_s p)
    (mu_s p) (lambda p) (mu p) (def_elastic p) (def_plastic p)
    (det_elastic p) (det_plastic p) x (svd_w p) (svd_e p) (svd_v p)
    (polar_r p) (polar_s p).

Definition set_svd_w (x : Matrix2f) (p : Particle) : Particle :=
  mkParticle (position p) (velocity p) (mass p) (volume p) (lambda_s p)
    (mu_s p) (lambda p) (mu p) (def_elastic p) (def_plastic p)
    (det_elastic p) (det_plastic p) (velocity_gradient p) x (svd_e p)
    (svd_v p) (polar_r p) (polar_s p).

Definition set_svd_e (x : Vector2f) (p : Particle) : Particle :=
  mkParticle (position p) (velocity p) (mass p) (volume p) (lambda_s p)
    (mu_s p) (lambda p) (mu p) (def_elastic p) (def_plastic p)
    (det_elastic p) (det_plastic p) (velocity_gradient p) (svd_w p) x
    (svd_v p) (polar_r p) (polar_s p).

Definition set_svd_v (x : Matrix2f) (p : Particle) : Particle :=
  mkParticle (position p) (velocity p) (mass p) (volume p) (lambda_s p)
    (mu_s p) (lambda p) (mu p) (def_elastic p) (def_plastic p)
    (det_elastic p) (det_plastic p) (velocity_gradient p) (svd_w p)
    (svd_e p) x (polar_r p) (polar_s p).

Definition set_polar_r (x : Matrix2f) (p : Particle) : Particle :=
  mkParticle (position p) (velocity p) (mass p) (volume p) (lambda_s p)
    (mu_s p) (lambda p) (mu p) (def_elastic p) (def_plastic p)
    (det_elastic p) (det_plastic p) (velocity_gradient p) (svd_w p)
    (svd_e p) (svd_v p) x (polar_s p).

Definition set_polar_s (x : Matrix2f) (p : Particle) : Particle :=
  mkParticle (position p) (velocity p) (mass p) (volume p) (lambda_s p)
    (mu_s p) (lambda p) (mu p) (def_elastic p) (def_plastic p)
    (det_elastic p) (det_plastic p) (velocity_gradient p) (svd_w p)
    (svd_e p) (svd_v p) (polar_r p) x.

(** ** Methods as state computations *)

(** A method body: from the particle before to a result and the particle
    after. *)
Definition St (A : Type) : Type := Particle -> A * Particle.

Definition ret {A : Type} (a : A) : St A := fun p => (a, p).

Definition bind {A B : Type} (c : St A) (k : A -> St B) : St B :=
  fun p => let r := c p in k (fst r) (snd r).

(** Reading a field of [this]. *)
Definition read {A : Type} (field : Particle -> A) : St A :=
  fun p => (field p, p).

(** Writing a field of [this], through its setter. *)
Definition write {A : Type} (setter : A -> Particle -> Particle) (x : A)
  : St unit :=
  fun p => (tt, setter x p).

(** The result of a method, and the particle it leaves. *)
Definition result {A : Type} (c : St A) (p : Particle) : A := fst (c p).
Definition after {A : Type} (c : St A) (p : Particle) : Particle := snd (c p).

Declare Scope st_scope.
Delimit Scope st_scope with st.
Notation "x <- c ;; k" := (bind c (fun x => k))
  (at level 61, c at next level, right associativity) : st_scope.
Notation "c ;; k" := (bind c (fun _ => k))
  (at level 61, right associativity) : st_scope.

(** The comparison [a < b] of two floats, as a condition. *)
Definition less (a b : R) : bool := if Rlt_dec a b then true else false.

(** The quotient [a / b] of two floats, where it is a number: a division
    by zero gives an infinity or a NaN, and has no result here. *)
Definition divide (a b : R) : option R :=
  if Req_dec_T b 0 then None else Some (a / b).

(** The comparison [a > b] of two floats, as a condition. *)
Definition greater (a b : R) : bool := if Rgt_dec a b then true else false.

(** [for (int i = ...; ...; i++) body], over the indices the loop visits. *)
Fixpoint for_each (indices : list nat) (body : nat -> St unit) : St unit :=
  match indices with
  | [] => ret tt
  | i :: rest => bind (body i) (fun _ => for_each rest body)
  end.

(** ** Sample data *)

(** Constants, a decomposition and particles on which the properties
    below are instantiated. *)
Module Sample.

Definition TIMESTEP : R := 1 / 10000.
Definition CRIT_COMPRESS : R := 981 / 1000.
Definition CRIT_STRETCH : R := 10075 / 10000.
Definition HARDENING : R := 5.
Definition MATRIX_EPSILON : R := 1 / 1000000.

(** The decomposition of a diagonal matrix with non-negative entries:
    [W = V = I] and the diagonal as singular values. *)
Definition svd (a : Matrix2f) : Matrix2f * Vector2f * Matrix2f :=
  (Mat.identity, mkVector2f (m00 a) (m11 a), Mat.identity).

(** A particle at rest: identity gradients, unit mass, volume and
    parameters, no velocity gradient. *)
Definition rest : Particle :=
  mkParticle (mkVector2f 0 0) (mkVector2f 0 0) 1 1 1 1 1 1
    Mat.identity Mat.identity 1 1 Mat.zero
    Mat.identity (mkVector2f 1 1) Mat.identity Mat.identity Mat.identity.

(** The particle at rest with a velocity gradient that halves it along the
    first axis in one step. *)
Definition squeezed : Particle :=
  set_velocity_gradient (mkMatrix2f (- 5000) 0 0 0) rest.

(** The particle at rest with a velocity gradient that stretches it by
    half a percent along the first axis in one step. *)
Definition stretched : Particle :=
  set_velocity_gradient (mkMatrix2f 50 0 0 0) rest.

(** The particle at rest turned by the rotation with cosine [3/5] and sine
    [4/5]: [def_elastic] and [polar_r] are that rotation. *)
Definition turned : Particle :=
  set_def_elastic (mkMatrix2f (3 / 5) (- (4 / 5)) (4 / 5) (3 / 5))
    (set_polar_r (mkMatrix2f (3 / 5) (- (4 / 5)) (4 / 5) (3 / 5)) rest).

(** A strained particle: stretched to twice its length along the first
    axis, not rotated, with the cached determinant that goes with it. *)
Definition strained : Particle :=
  set_def_elastic (mkMatrix2f 2 0 0 1) (set_det_elastic 2 rest).

(** The particle at rest with a cached determinant that is not the
    determinant of its [def_elastic]. *)
Definition stale : Particle := set_det_elastic 4 rest.

(** A particle whose [polar_s] has trace zero. *)
Definition traceless : Particle :=
  set_polar_s (mkMatrix2f 1 0 0 (- 1)) rest.

End Sample.

(** Runs the monadic steps and the field accesses of a method on a
    particle given by its fields; the arithmetic is left as it stands. *)
Ltac run_steps :=
  cbv beta iota zeta delta
    [ for_each bind read write ret result after fst snd Vec.get Vec.set
      set_position set_velocity set_mass set_volume set_lambda_s set_mu_s
      set_lambda set_mu set_def_elastic set_def_plastic set_det_elastic
      set_det_plastic set_velocity_gradient set_svd_w set_svd_e set_svd_v
      set_polar_r set_polar_s
      position velocity mass volume lambda_s mu_s lambda mu def_elastic
      def_plastic det_elastic det_plastic velocity_gradient svd_w svd_e
      svd_v polar_r polar_s v0 v1 ].

Section Methods.

(** The simulation constants; [Particle.cpp] takes them from a header
    that is not part of it, so they are parameters here. *)
Variables TIMESTEP CRIT_COMPRESS CRIT_STRETCH HARDENING MATRIX_EPSILON : R.

(** [Matrix2f::svd(&w, &e, &v)], the decomposition primitive of the matrix
    class: from a matrix to the factors it stores in [w], [e] and [v].
    Its code is not part of [Particle.cpp]; it is a parameter, and a
    property that needs the factors to be orthogonal says so (see
    [svd_orthogonal]). *)
Variable svd : Matrix2f -> Matrix2f * Vector2f * Matrix2f.

Local Open Scope st_scope.

(** [Particle::Particle(pos, vel, mass, lame_lambda, lame_mu)].  The
    constructor assigns the fields below and no other: [volume],
    [lambda], [mu] and [velocity_gradient] keep whatever the memory
    held, which is the particle the computation starts from. *)
Definition Particle_new (pos vel : Vector2f) (mass' lame_lambda lame_mu : R)
  : St unit :=
  write set_position pos ;;
  write set_velocity vel ;;
  write set_mass mass' ;;
  write set_lambda_s lame_lambda ;;
  write set_mu_s lame_mu ;;
  write set_def_elastic Mat.identity ;;
  write set_def_plastic Mat.identity ;;
  write set_det_elastic 1 ;;
  write set_det_plastic 1 ;;
  write set_svd_e (mkVector2f 1 1) ;;
  write set_svd_w Mat.identity ;;
  write set_svd_v Mat.identity ;;
  write set_polar_r Mat.identity ;;
  write set_polar_s Mat.identity.

(** [Particle::Particle()], the default constructor: its body is empty, so
    the particle is whatever the memory held. *)
Definition Particle_default : St unit := ret tt.

(** [Particle::updatePos()]. *)
Definition updatePos : St unit :=
  pos <- read position ;;
  vel <- read velocity ;;
  write set_position (Vec.add pos (Vec.scale TIMESTEP vel)).

(** The body of the clamping loop of [updateGradient], at index [i]. *)
Definition clamp_step (i : nat) : St unit :=
  e <- read svd_e ;;
  if less (Vec.get e i) CRIT_COMPRESS then
    write set_svd_e (Vec.set e i CRIT_COMPRESS)
  else if greater (Vec.get e i) CRIT_STRETCH then
    write set_svd_e (Vec.set e i CRIT_STRETCH)
  else ret tt.

(** [Particle::updateGradient()].  The result is [f_all], the local the
    method computes before the decomposition; the C++ method returns
    nothing, and [f_all] is returned here so that properties can speak of
    it. *)
Definition updateGradient : St Matrix2f :=
  (* velocity_gradient *= TIMESTEP; velocity_gradient.diag_sum(1); *)
  vg <- read velocity_gradient ;;
  write set_velocity_gradient (TIMESTEP .* vg) ;;
  vg <- read velocity_gradient ;;
  write set_velocity_gradient (Mat.diag_sum vg 1) ;;
  (* def_elastic.setData(velocity_gradient * def_elastic); *)
  vg <- read velocity_gradient ;;
  fe <- read def_elastic ;;
  write set_def_elastic (vg ** fe) ;;
  (* Matrix2f f_all = def_elastic * def_plastic; *)
  fe <- read def_elastic ;;
  fp <- read def_plastic ;;
  let f_all := fe ** fp in
  (* def_elastic.svd(&svd_w, &svd_e, &svd_v); *)
  fe <- read def_elastic ;;
  let wev := svd fe in
  write set_svd_w (fst (fst wev)) ;;
  write set_svd_e (snd (fst wev)) ;;
  write set_svd_v (snd wev) ;;
  (* Matrix2f svd_v_trans = svd_v.transpose(); *)
  v <- read svd_v ;;
  let svd_v_trans := Mat.transpose v in
  (* for (int i=0; i<2; i++) ... *)
  for_each [0%nat; 1%nat] clamp_step ;;
  (* polar_r.setData(svd_w*svd_v_trans); *)
  w <- read svd_w ;;
  write set_polar_r (w ** svd_v_trans) ;;
  (* polar_s.setData(svd_v); polar_s.diag_product(svd_e); *)
  v <- read svd_v ;;
  write set_polar_s v ;;
  s <- read polar_s ;;
  e <- read svd_e ;;
  write set_polar_s (Mat.diag_product s e) ;;
  (* polar_s.setData(polar_s*svd_v_trans); *)
  s <- read polar_s ;;
  write set_polar_s (s ** svd_v_trans) ;;
  (* Matrix2f v_cpy(svd_v), w_cpy(svd_w); *)
  v_cpy <- read svd_v ;;
  w_cpy <- read svd_w ;;
  (* v_cpy.diag_product_inv(svd_e); w_cpy.diag_product(svd_e); *)
  e <- read svd_e ;;
  let v_cpy := Mat.diag_product_inv v_cpy e in
  e <- read svd_e ;;
  let w_cpy := Mat.diag_product w_cpy e in
  (* def_plastic = v_cpy*svd_w.transpose()*f_all; *)
  w <- read svd_w ;;
  write set_def_plastic (v_cpy ** Mat.transpose w ** f_all) ;;
  (* def_elastic = w_cpy*svd_v.transpose(); *)
  v <- read svd_v ;;
  write set_def_elastic (w_cpy ** Mat.transpose v) ;;
  (* det_elastic = def_elastic.determinant(); *)
  fe <- read def_elastic ;;
  write set_det_elastic (Mat.determinant fe) ;;
  (* det_plastic = def_plastic.determinant(); *)
  fp <- read def_plastic ;;
  write set_det_plastic (Mat.determinant fp) ;;
  (* float scale = exp(HARDENING*(1-det_plastic)); *)
  jp <- read det_plastic ;;
  let scale := exp (HARDENING * (1 - jp)) in
  (* mu = mu_s*scale; lambda = lambda_s*scale; *)
  m <- read mu_s ;;
  write set_mu (m * scale) ;;
  l <- read lambda_s ;;
  write set_lambda (l * scale) ;;
  ret f_all.

(** [Particle::cauchyStress()]. *)
Definition cauchyStress : St Matrix2f :=
  (* Matrix2f temp = def_elastic - polar_r; temp *= 2*mu; *)
  fe <- read def_elastic ;;
  r <- read polar_r ;;
  let temp := fe -m r in
  m <- read mu ;;
  let temp := (2 * m) .* temp in
  (* Matrix2f temp2 = temp*def_elastic.transpose(); *)
  fe <- read def_elastic ;;
  let temp2 := temp ** Mat.transpose fe in
  (* temp2.diag_sum(lambda*det_elastic*(det_elastic-1)); *)
  l <- read lambda ;;
  je <- read det_elastic ;;
  let temp2 := Mat.diag_sum temp2 (l * je * (je - 1)) in
  (* return volume * temp2; *)
  vol <- read volume ;;
  ret (vol .* temp2).

(** [Particle::deltaForce(u, weight_grad)].  The result is [None] when
    the division by [polar_s[0][0] + polar_s[1][1]] is a division by zero:
    every component of the vector the source returns is then computed from
    an infinity or a NaN, and is no number. *)
Definition deltaForce (u weight_grad : Vector2f) : St (option Vector2f) :=
  (* Matrix2f del_elastic = TIMESTEP*u.dyadic_product(weight_grad)*def_elastic; *)
  fe <- read def_elastic ;;
  let del_elastic := (TIMESTEP .* Mat.dyadic_product u weight_grad) ** fe in
  if less (m00 del_elastic) MATRIX_EPSILON
     && less (m01 del_elastic) MATRIX_EPSILON
     && less (m10 del_elastic) MATRIX_EPSILON
     && less (m11 del_elastic) MATRIX_EPSILON
  then
    (* return Vector2f(0); *)
    ret (Some (Vec.fill 0))
  else
    (* float y = ...; *)
    r <- read polar_r ;;
    let y := (m00 r * m10 del_elastic + m10 r * m11 del_elastic)
             - (m01 r * m00 del_elastic + m11 r * m01 del_elastic) in
    (* float x = y / (polar_s[0][0] + polar_s[1][1]); *)
    s <- read polar_s ;;
    match divide y (m00 s + m11 s) with
    | None => ret None
    | Some x =>
      (* Matrix2f del_rotate = Matrix2f(...); *)
      r <- read polar_r ;;
      let del_rotate :=
        mkMatrix2f ((- m10 r) * x) (m00 r * x) ((- m11 r) * x) (m01 r * x) in
      (* Matrix2f cofactor = def_elastic.cofactor(); *)
      fe <- read def_elastic ;;
      let cofactor := Mat.cofactor fe in
      (* Matrix2f del_cofactor = del_elastic.cofactor(); *)
      let del_cofactor := Mat.cofactor del_elastic in
      (* Matrix2f Ap = del_elastic-del_rotate; Ap *= 2*mu; *)
      let Ap := del_elastic -m del_rotate in
      m <- read mu ;;
      let Ap := (2 * m) .* Ap in
      (* cofactor *= cofactor.frobeniusInnerProduct(del_elastic); *)
      let cofactor :=
        Mat.frobeniusInnerProduct cofactor del_elastic .* cofactor in
      (* del_cofactor *= (det_elastic-1); *)
      je <- read det_elastic ;;
      let del_cofactor := (je - 1) .* del_cofactor in
      (* cofactor += del_cofactor; cofactor *= lambda; Ap += cofactor; *)
      let cofactor := cofactor +m del_cofactor in
      l <- read lambda ;;
      let cofactor := l .* cofactor in
      let Ap := Ap +m cofactor in
      (* return volume*(Ap*(def_elastic.transpose()*weight_grad)); *)
      vol <- read volume ;;
      fe <- read def_elastic ;;
      ret (Some (Vec.scale vol
                   (Mat.apply Ap (Mat.apply (Mat.transpose fe) weight_grad))))
    end.

(** ** What the methods compute, in closed form *)

(** The elastic gradient [updateGradient] decomposes: the incremental
    operator [TIMESTEP * velocity_gradient + I] applied to [def_elastic]. *)
Definition tentative (p : Particle) : Matrix2f :=
  Mat.diag_sum (TIMESTEP .* velocity_gradient p) 1 ** def_elastic p.

(** One pass of the clamping loop on one singular value. *)
Definition clamp (e : R) : R :=
  if less e CRIT_COMPRESS then CRIT_COMPRESS
  else if greater e CRIT_STRETCH then CRIT_STRETCH
  else e.

(** The singular values after the clamping loop. *)
Definition clamped (e : Vector2f) : Vector2f :=
  mkVector2f (clamp (v0 e)) (clamp (v1 e)).

(** The factors [svd] returns for the matrix [a]. *)
Definition svd_W (a : Matrix2f) : Matrix2f := fst (fst (svd a)).
Definition svd_E (a : Matrix2f) : Vector2f := snd (fst (svd a)).
Definition svd_V (a : Matrix2f) : Matrix2f := snd (svd a).

(** Modelled from the spec: the contract of the decomposition primitive
    [Matrix2f::svd], whose code is not part of [Particle.cpp]: the factors
    [W] and [V] it returns for [a] are orthogonal. *)
Definition svd_orthogonal (a : Matrix2f) : Prop :=
  Mat.orthogonal (svd_W a) /\ Mat.orthogonal (svd_V a).

(** The particle [updateGradient] leaves, field by field. *)
Definition updated (p : Particle) : Particle :=
  let a := tentative p in
  let f_all := a ** def_plastic p in
  let e := clamped (svd_E a) in
  let fe := Mat.diag_product (svd_W a) e ** Mat.transpose (svd_V a) in
  let fp :=
    Mat.diag_product_inv (svd_V a) e ** Mat.transpose (svd_W a) ** f_all in
  let scale := exp (HARDENING * (1 - Mat.determinant fp)) in
  mkParticle (position p) (velocity p) (mass p) (volume p) (lambda_s p)
    (mu_s p) (lambda_s p * scale) (mu_s p * scale) fe fp
    (Mat.determinant fe) (Mat.determinant fp)
    (Mat.diag_sum (TIMESTEP .* velocity_gradient p) 1)
    (svd_W a) e (svd_V a)
    (svd_W a ** Mat.transpose (svd_V a))
    (Mat.diag_product (svd_V a) e ** Mat.transpose (svd_V a)).

(** The stress formula as the specification writes it:
    [volume * (2*mu*(Fe - Re)*Fe^T + lambda*det(Fe)*(det(Fe)-1)*I)]. *)
Definition stress_formula (p : Particle) : Matrix2f :=
  let Fe := def_elastic p in
  let Re := polar_r p in
  volume p .*
    (((2 * mu p) .* (Fe -m Re)) ** Mat.transpose Fe
     +m (lambda p * Mat.determinant Fe * (Mat.determinant Fe - 1))
        .* Mat.identity).

(** The stress formula with the cached determinant in the place of
    [det(Fe)]:
    [volume * (2*mu*(Fe - Re)*Fe^T + lambda*det_elastic*(det_elastic-1)*I)]. *)
Definition stress_formula_cached (p : Particle) : Matrix2f :=
  let Fe := def_elastic p in
  let Re := polar_r p in
  volume p .*
    (((2 * mu p) .* (Fe -m Re)) ** Mat.transpose Fe
     +m (lambda p * det_elastic p * (det_elastic p - 1)) .* Mat.identity).

(** [del_elastic], the first local of [deltaForce]. *)
Definition del_elastic_of (p : Particle) (u weight_grad : Vector2f)
  : Matrix2f :=
  (TIMESTEP .* Mat.dyadic_product u weight_grad) ** def_elastic p.

(** The condition of the early return of [deltaForce]: the four entries
    of [del_elastic] each compare [<] against [MATRIX_EPSILON]. *)
Definition early_out (p : Particle) (u weight_grad : Vector2f) : Prop :=
  let d := del_elastic_of p u weight_grad in
  m00 d < MATRIX_EPSILON /\ m01 d < MATRIX_EPSILON /\
  m10 d < MATRIX_EPSILON /\ m11 d < MATRIX_EPSILON.

(** The divisor of [deltaForce]: [polar_s[0][0] + polar_s[1][1]]. *)
Definition polar_s_trace (p : Particle) : R :=
  m00 (polar_s p) + m11 (polar_s p).

(** What [deltaForce] computes past its early return: the force
    differential, or nothing when the divisor is zero. *)
Definition force_differential (p : Particle) (u weight_grad : Vector2f)
  : option Vector2f :=
  let d := del_elastic_of p u weight_grad in
  let r := polar_r p in
  let y := (m00 r * m10 d + m10 r * m11 d) - (m01 r * m00 d + m11 r * m01 d) in
  match divide y (polar_s_trace p) with
  | None => None
  | Some x =>
    let del_rotate :=
      mkMatrix2f ((- m10 r) * x) (m00 r * x) ((- m11 r) * x) (m01 r * x) in
    let cofactor := Mat.cofactor (def_elastic p) in
    let Ap :=
      (2 * mu p) .* (d -m del_rotate)
      +m lambda p .* (Mat.frobeniusInnerProduct cofactor d .* cofactor
                      +m (det_elastic p - 1) .* Mat.cofactor d) in
    Some (Vec.scale (volume p)
            (Mat.apply Ap
               (Mat.apply (Mat.transpose (def_elastic p)) weight_grad)))
  end.

(** [a*f1 + b*f2] for two results of [deltaForce], where both are vectors
    of numbers. *)
Definition combine (a b : R) (f1 f2 : option Vector2f) : option Vector2f :=
  match f1, f2 with
  | Some x, Some y => Some (Vec.add (Vec.scale a x) (Vec.scale b y))
  | _, _ => None
  end.

(** Modelled from the spec: the rest of the contract of the decomposition
    primitive [Matrix2f::svd], whose code is not part of [Particle.cpp]:
    the factors it returns for [a] multiply back to [a],
    [a = W * diag(e) * V^T]. *)
Definition svd_factors (a : Matrix2f) : Prop :=
  svd_W a ** Mat.diag (svd_E a) ** Mat.transpose (svd_V a) = a.

(** A matrix that equals its transpose. *)
Definition symmetric (a : Matrix2f) : Prop := m01 a = m10 a.

(** [evolves p q]: the particle [p] becomes [q] by calls of the methods
    and by the grid's writes of [volume] and [velocity_gradient], in any
    order and number. *)
Inductive evolves (p : Particle) : Particle -> Prop :=
| evolves_here : evolves p p
| evolves_updateGradient (q : Particle) :
    evolves p q -> evolves p (after updateGradient q)
| evolves_updatePos (q : Particle) :
    evolves p q -> evolves p (after updatePos q)
| evolves_cauchyStress (q : Particle) :
    evolves p q -> evolves p (after cauchyStress q)
| evolves_deltaForce (q : Particle) (u weight_grad : Vector2f) :
    evolves p q -> evolves p (after (deltaForce u weight_grad) q)
| evolves_volume (q : Particle) (vol : R) :
    evolves p q -> evolves p (set_volume vol q)
| evolves_velocity_gradient (q : Particle) (g : Matrix2f) :
    evolves p q -> evolves p (set_velocity_gradient g q).

(** ** The methods run *)

(** Two matrices, or two vectors, are equal when their entries are. *)
Lemma Matrix2f_ext (a b : Matrix2f) :
  m00 a = m00 b -> m01 a = m01 b -> m10 a = m10 b -> m11 a = m11 b -> a = b.
Proof. destruct a, b; simpl; intros; subst; reflexivity. Qed.

Lemma Vector2f_ext (u v : Vector2f) :
  v0 u = v0 v -> v1 u = v1 v -> u = v.
Proof. destruct u, v; simpl; intros; subst; reflexivity. Qed.

(** Entrywise reasoning: split an equation of matrices or vectors into its
    scalar equations. *)
Ltac entrywise :=
  first [ apply Matrix2f_ext | apply Vector2f_ext ];
  unfold Mat.frobeniusInnerProduct, Mat.determinant; simpl.

Lemma less_true (a b : R) : a < b -> less a b = true.
Proof. intros H; unfold less; destruct (Rlt_dec a b); [reflexivity | contradiction]. Qed.

Lemma less_false (a b : R) : ~ a < b -> less a b = false.
Proof. intros H; unfold less; destruct (Rlt_dec a b); [contradiction | reflexivity]. Qed.

Lemma less_spec (a b : R) : less a b = true <-> a < b.
Proof.
  unfold less; destruct (Rlt_dec a b); split; intros; try discriminate;
    try reflexivity; try assumption; contradiction.
Qed.

Lemma greater_spec (a b : R) : greater a b = true <-> a > b.
Proof.
  unfold greater; destruct (Rgt_dec a b); split; intros; try discriminate;
    try reflexivity; try assumption; contradiction.
Qed.

(** [updateGradient] leaves the particle [updated] and computes [f_all] as
    the tentative elastic gradient times the old plastic gradient. *)
Lemma updateGradient_run (p : Particle) :
  updateGradient p = (tentative p ** def_plastic p, updated p).
Proof.
  destruct p.
  unfold updateGradient, clamp_step, updated, tentative, clamped, clamp,
    svd_W, svd_E, svd_V.
  run_steps.
  destruct (svd _) as [[W [e0 e1]] V].
  run_steps.
  destruct (less e0 CRIT_COMPRESS), (greater e0 CRIT_STRETCH),
    (less e1 CRIT_COMPRESS), (greater e1 CRIT_STRETCH); reflexivity.
Qed.

Lemma updateGradient_after (p : Particle) :
  after updateGradient p = updated p.
Proof. unfold after; rewrite updateGradient_run; reflexivity. Qed.

Lemma updateGradient_result (p : Particle) :
  result updateGradient p = tentative p ** def_plastic p.
Proof. unfold result; rewrite updateGradient_run; reflexivity. Qed.

(** ** Matrix algebra *)

Lemma mul_assoc (a b c : Matrix2f) : a ** b ** c = a ** (b ** c).
Proof. entrywise; ring. Qed.

Lemma mul_identity_l (a : Matrix2f) : Mat.identity ** a = a.
Proof. entrywise; ring. Qed.

Lemma mul_identity_r (a : Matrix2f) : a ** Mat.identity = a.
Proof. entrywise; ring. Qed.

(** Scaling columns commutes with a product on the left. *)
Lemma mul_diag_product_inv (a b : Matrix2f) (e : Vector2f) :
  a ** Mat.diag_product_inv b e = Mat.diag_product_inv (a ** b) e.
Proof. entrywise; unfold Rdiv; ring. Qed.

Lemma diag_product_mul (a b : Matrix2f) (e : Vector2f) :
  Mat.diag_product a e ** b = a ** (Mat.diag e ** b).
Proof. entrywise; ring. Qed.

(** Dividing the columns of the identity by [e] inverts [diag e]. *)
Lemma diag_inverse (e : Vector2f) :
  v0 e <> 0 -> v1 e <> 0 ->
  Mat.diag e ** Mat.diag_product_inv Mat.identity e = Mat.identity.
Proof. intros H0 H1; entrywise; field; assumption. Qed.

(** The columns of an orthogonal matrix are unit vectors. *)
Lemma orthogonal_columns (a : Matrix2f) :
  Mat.transpose a ** a = Mat.identity ->
  m00 a * m00 a + m10 a * m10 a = 1 /\ m01 a * m01 a + m11 a * m11 a = 1.
Proof.
  intros H.
  split.
  - apply (f_equal m00) in H; simpl in H; exact H.
  - apply (f_equal m11) in H; simpl in H; exact H.
Qed.

(** ** The clamp *)

Lemma clamp_cases (e : R) :
  (e < CRIT_COMPRESS /\ clamp e = CRIT_COMPRESS)
  \/ (CRIT_COMPRESS <= e /\ e > CRIT_STRETCH /\ clamp e = CRIT_STRETCH)
  \/ (CRIT_COMPRESS <= e <= CRIT_STRETCH /\ clamp e = e).
Proof.
  unfold clamp, less, greater.
  destruct (Rlt_dec e CRIT_COMPRESS) as [Hlt | Hge].
  - left; split; [assumption | reflexivity].
  - destruct (Rgt_dec e CRIT_STRETCH) as [Hgt | Hle].
    + right; left; repeat split; [lra | assumption].
    + right; right; repeat split; lra.
Qed.

Lemma clamp_in_range (e : R) :
  CRIT_COMPRESS <= CRIT_STRETCH -> CRIT_COMPRESS <= clamp e <= CRIT_STRETCH.
Proof.
  intros Hcs.
  destruct (clamp_cases e) as [[_ ->] | [[_ [_ ->]] | [H ->]]]; lra.
Qed.

Lemma get_clamped (e : Vector2f) (i : nat) :
  Vec.get (clamped e) i = clamp (Vec.get e i).
Proof. destruct i; reflexivity. Qed.

(** ** Properties of [updateGradient] *)

(** C5.  Clamping invariant.  When [CRIT_COMPRESS <= 1 <= CRIT_STRETCH],
    after [updateGradient] each singular value stored in [svd_e] lies in
    the closed interval [[CRIT_COMPRESS, CRIT_STRETCH]]: it is the value
    the decomposition returned when that one is in the interval,
    [CRIT_COMPRESS] when it is below and [CRIT_STRETCH] when it is above;
    and [polar_s] and the reconstructed [def_elastic] and [def_plastic]
    are built from these stored values. *)
Theorem clamping_invariant (p : Particle) (i : nat) :
  CRIT_COMPRESS <= 1 -> 1 <= CRIT_STRETCH -> (i < 2)%nat ->
  let p' := after updateGradient p in
  let e := Vec.get (svd_E (tentative p)) i in
  CRIT_COMPRESS <= Vec.get (svd_e p') i <= CRIT_STRETCH
  /\ (e < CRIT_COMPRESS -> Vec.get (svd_e p') i = CRIT_COMPRESS)
  /\ (e > CRIT_STRETCH -> Vec.get (svd_e p') i = CRIT_STRETCH)
  /\ (CRIT_COMPRESS <= e <= CRIT_STRETCH -> Vec.get (svd_e p') i = e)
  /\ polar_s p'
     = Mat.diag_product (svd_v p') (svd_e p') ** Mat.transpose (svd_v p')
  /\ def_elastic p'
     = Mat.diag_product (svd_w p') (svd_e p') ** Mat.transpose (svd_v p')
  /\ def_plastic p'
     = Mat.diag_product_inv (svd_v p') (svd_e p') ** Mat.transpose (svd_w p')
       ** result updateGradient p.
Proof.
  intros Hc Hs Hi p' e.
  subst p'; rewrite updateGradient_after, updateGradient_result.
  change (svd_e (updated p)) with (clamped (svd_E (tentative p))).
  rewrite get_clamped; fold e.
  split; [apply clamp_in_range; lra |].
  destruct (clamp_cases e) as [[H ->] | [[H [H' ->]] | [H ->]]];
    repeat split; intros; try reflexivity; lra.
Qed.

(** C6.  Determinant consistency.  After [updateGradient] the cached
    [det_elastic] and [det_plastic] are the determinants of the
    reconstructed [def_elastic] and [def_plastic], whatever the velocity
    gradient was. *)
Theorem determinant_consistency (p : Particle) :
  let p' := after updateGradient p in
  det_elastic p' = Mat.determinant (def_elastic p')
  /\ det_plastic p' = Mat.determinant (def_plastic p').
Proof.
  intros p'; subst p'; rewrite updateGradient_after.
  split; reflexivity.
Qed.

(** [updateGradient] never assigns the rest parameters. *)
Lemma updateGradient_rest_parameters (p : Particle) :
  mu_s (after updateGradient p) = mu_s p
  /\ lambda_s (after updateGradient p) = lambda_s p.
Proof. rewrite updateGradient_after; split; reflexivity. Qed.

(** The hardening scale grows as the plastic determinant shrinks. *)
Lemma hardening_scale_antitone (j j' : R) :
  0 <= HARDENING -> j' <= j ->
  exp (HARDENING * (1 - j)) <= exp (HARDENING * (1 - j')).
Proof.
  intros Hh Hj.
  assert (Harg : HARDENING * (1 - j) <= HARDENING * (1 - j')) by nra.
  destruct Harg as [Hlt | Heq].
  - left; apply exp_increasing; exact Hlt.
  - right; rewrite Heq; reflexivity.
Qed.

(** C7.  Hardening law.  After [updateGradient],
    [mu = mu_s * exp(HARDENING * (1 - det_plastic))] and
    [lambda = lambda_s * exp(HARDENING * (1 - det_plastic))] with the
    [det_plastic] recomputed in that call; and, for [HARDENING >= 0] and
    non-negative rest parameters, of two updates of particles with the same
    rest parameters the one that ends with the smaller [det_plastic] ends
    with [mu] and [lambda] at least as large; so it is for two successive
    updates of one particle, whatever velocity gradient the grid writes
    in between. *)
Theorem hardening_law (p : Particle) :
  let p' := after updateGradient p in
  mu p' = mu_s p * exp (HARDENING * (1 - det_plastic p'))
  /\ lambda p' = lambda_s p * exp (HARDENING * (1 - det_plastic p'))
  /\ (forall q : Particle,
       let q' := after updateGradient q in
       0 <= HARDENING -> 0 <= mu_s p -> 0 <= lambda_s p ->
       mu_s q = mu_s p -> lambda_s q = lambda_s p ->
       det_plastic q' <= det_plastic p' ->
       mu p' <= mu q' /\ lambda p' <= lambda q')
  /\ (forall g : Matrix2f,
       let p'' := after updateGradient (set_velocity_gradient g p') in
       0 <= HARDENING -> 0 <= mu_s p -> 0 <= lambda_s p ->
       det_plastic p'' <= det_plastic p' ->
       mu p' <= mu p'' /\ lambda p' <= lambda p'').
Proof.
  intros p'.
  assert (Hmu : forall r, mu (after updateGradient r)
            = mu_s r * exp (HARDENING * (1 - det_plastic (after updateGradient r))))
    by (intros r; rewrite updateGradient_after; reflexivity).
  assert (Hla : forall r, lambda (after updateGradient r)
            = lambda_s r * exp (HARDENING * (1 - det_plastic (after updateGradient r))))
    by (intros r; rewrite updateGradient_after; reflexivity).
  assert (Hmono : forall q : Particle,
            0 <= HARDENING -> 0 <= mu_s p -> 0 <= lambda_s p ->
            mu_s q = mu_s p -> lambda_s q = lambda_s p ->
            det_plastic (after updateGradient q)
            <= det_plastic (after updateGradient p) ->
            mu (after updateGradient p) <= mu (after updateGradient q)
            /\ lambda (after updateGradient p)
               <= lambda (after updateGradient q)).
  { intros q Hh Hm Hl Hqm Hql Hdet.
    rewrite (Hmu p), (Hmu q), (Hla p), (Hla q), Hqm, Hql.
    pose proof (hardening_scale_antitone _ _ Hh Hdet) as Hexp.
    split; apply Rmult_le_compat_l; assumption. }
  subst p'.
  split; [apply Hmu | split; [apply Hla | split]].
  - intros q q'; subst q'; apply Hmono.
  - intros g p'' Hh Hm Hl Hdet; subst p''.
    destruct (updateGradient_rest_parameters p) as [Em El].
    revert Hmono Hdet Em El.
    generalize (after updateGradient p) as p'; intros p' Hmono Hdet Em El.
    assert (Em' : mu_s (set_velocity_gradient g p') = mu_s p) by exact Em.
    assert (El' : lambda_s (set_velocity_gradient g p') = lambda_s p)
      by exact El.
    exact (Hmono (set_velocity_gradient g p') Hh Hm Hl Em' El' Hdet).
Qed.

(** C3.  Reconstruction invariant.  When the decomposition primitive
    returns orthogonal factors and the clamped singular values are
    nonzero, the [def_elastic] and [def_plastic] that [updateGradient]
    leaves multiply to the [f_all] of that call, which is the tentative
    elastic gradient times the plastic gradient the call started from. *)
Theorem reconstruction_invariant (p : Particle) :
  let p' := after updateGradient p in
  let f_all := result updateGradient p in
  svd_orthogonal (tentative p) ->
  v0 (svd_e p') <> 0 -> v1 (svd_e p') <> 0 ->
  def_elastic p' ** def_plastic p' = f_all
  /\ f_all = tentative p ** def_plastic p.
Proof.
  intros p' f_all; subst p' f_all.
  rewrite updateGradient_after, updateGradient_result.
  intros [[_ HW] [HV _]] H0 H1.
  split; [| reflexivity].
  cbv beta iota zeta delta [updated def_elastic def_plastic svd_e] in *.
  set (a := tentative p) in *.
  set (e := clamped (svd_E a)) in *.
  rewrite diag_product_mul.
  rewrite !mul_assoc.
  rewrite <- (mul_assoc (Mat.transpose (svd_V a))).
  rewrite mul_diag_product_inv, HV.
  rewrite <- (mul_assoc (Mat.diag e)).
  rewrite diag_inverse by assumption.
  rewrite mul_identity_l.
  rewrite <- (mul_assoc (svd_W a)), HW.
  apply mul_identity_l.
Qed.

(** C10.  The divisor of [deltaForce] after an update.  When
    [CRIT_COMPRESS > 0], the clamp interval is not empty and the
    decomposition primitive returns orthogonal factors, after
    [updateGradient] the trace [polar_s[0][0] + polar_s[1][1]] is the sum
    of the two clamped singular values, it is at least [2*CRIT_COMPRESS],
    and so it is positive: the division by it in [deltaForce] is not a
    division by zero. *)
Theorem polar_s_trace_positive (p : Particle) :
  let p' := after updateGradient p in
  0 < CRIT_COMPRESS -> CRIT_COMPRESS <= CRIT_STRETCH ->
  svd_orthogonal (tentative p) ->
  m00 (polar_s p') + m11 (polar_s p') = v0 (svd_e p') + v1 (svd_e p')
  /\ 2 * CRIT_COMPRESS <= m00 (polar_s p') + m11 (polar_s p')
  /\ m00 (polar_s p') + m11 (polar_s p') <> 0.
Proof.
  intros p'; subst p'; rewrite updateGradient_after.
  intros Hc Hcs [_ [HV _]].
  apply orthogonal_columns in HV; destruct HV as [Hc0 Hc1].
  cbv beta iota zeta delta [updated polar_s svd_e] in *.
  set (a := tentative p) in *.
  pose proof (clamp_in_range (v0 (svd_E a)) Hcs) as He0.
  pose proof (clamp_in_range (v1 (svd_E a)) Hcs) as He1.
  assert (Htr : m00 (Mat.diag_product (svd_V a) (clamped (svd_E a))
                       ** Mat.transpose (svd_V a))
                + m11 (Mat.diag_product (svd_V a) (clamped (svd_E a))
                         ** Mat.transpose (svd_V a))
                = v0 (clamped (svd_E a)) + v1 (clamped (svd_E a))).
  { simpl.
    transitivity
      (clamp (v0 (svd_E a))
         * (m00 (svd_V a) * m00 (svd_V a) + m10 (svd_V a) * m10 (svd_V a))
       + clamp (v1 (svd_E a))
         * (m01 (svd_V a) * m01 (svd_V a) + m11 (svd_V a) * m11 (svd_V a)));
      [ring | rewrite Hc0, Hc1; ring]. }
  rewrite Htr; simpl.
  repeat split; lra.
Qed.

(** ** Properties of [cauchyStress] *)

(** What [cauchyStress] returns, with the cached determinant it reads. *)
Lemma cauchyStress_result (p : Particle) :
  result cauchyStress p
  = volume p .*
      Mat.diag_sum
        (((2 * mu p) .* (def_elastic p -m polar_r p))
         ** Mat.transpose (def_elastic p))
        (lambda p * det_elastic p * (det_elastic p - 1)).
Proof. reflexivity. Qed.

(** C1, as the code has it.  For every particle state, [cauchyStress]
    returns
    [volume * (2*mu*(Fe - Re)*Fe^T + lambda*det_elastic*(det_elastic-1)*I)]
    with [Fe = def_elastic], [Re = polar_r] and [det_elastic] the cached
    field, which the method reads where the formula writes [det(Fe)]; the
    volumetric term is a multiple of the identity, so only the diagonal
    receives it.  It is the formula with [det(Fe)] whenever the cache is
    the determinant of [def_elastic], as it is after every
    [updateGradient], whatever [volume] is written afterwards. *)
Theorem cauchyStress_formula (p : Particle) :
  result cauchyStress p = stress_formula_cached p
  /\ (forall c a, Mat.diag_sum a c = a +m c .* Mat.identity)
  /\ (det_elastic p = Mat.determinant (def_elastic p) ->
      result cauchyStress p = stress_formula p)
  /\ (forall vol : R,
      let p' := set_volume vol (after updateGradient p) in
      result cauchyStress p' = stress_formula p').
Proof.
  assert (Hc : forall q, result cauchyStress q = stress_formula_cached q)
    by (intros q; rewrite cauchyStress_result;
        unfold stress_formula_cached; entrywise; ring).
  assert (Hf : forall q, det_elastic q = Mat.determinant (def_elastic q) ->
                         stress_formula_cached q = stress_formula q)
    by (intros q Hq; unfold stress_formula_cached, stress_formula;
        rewrite Hq; reflexivity).
  split; [apply Hc | split; [intros c a; entrywise; ring | split]].
  - intros Hdet; rewrite Hc; apply Hf; exact Hdet.
  - intros vol p'; subst p'.
    rewrite Hc; apply Hf.
    rewrite updateGradient_after; reflexivity.
Qed.

(** C8.  No initial stress.  Right after the constructor, for every mass,
    every rest parameter and every value of [volume], [mu] and [lambda],
    [cauchyStress] returns the zero matrix. *)
Theorem cauchyStress_fresh_zero (p0 : Particle) (pos vel : Vector2f)
  (mass' lame_lambda lame_mu vol mu' lambda' : R) :
  let fresh := after (Particle_new pos vel mass' lame_lambda lame_mu) p0 in
  result cauchyStress fresh = Mat.zero
  /\ result cauchyStress (set_volume vol (set_mu mu' (set_lambda lambda' fresh)))
     = Mat.zero.
Proof.
  intros fresh; subst fresh.
  split; rewrite cauchyStress_result; entrywise; ring.
Qed.

(** ** Properties of [deltaForce] *)

(** The early return is taken exactly when the four comparisons hold. *)
Lemma early_out_test (p : Particle) (u w : Vector2f) :
  let d := del_elastic_of p u w in
  less (m00 d) MATRIX_EPSILON && less (m01 d) MATRIX_EPSILON
    && less (m10 d) MATRIX_EPSILON && less (m11 d) MATRIX_EPSILON = true
  <-> early_out p u w.
Proof.
  intros d; unfold early_out; fold d.
  rewrite !Bool.andb_true_iff, !less_spec.
  split.
  - intros [[[H0 H1] H2] H3]; repeat split; assumption.
  - intros [H0 [H1 [H2 H3]]]; repeat split; assumption.
Qed.

Lemma divide_zero (a b : R) : b = 0 -> divide a b = None.
Proof.
  intros H; unfold divide; destruct (Req_dec_T b 0);
    [reflexivity | contradiction].
Qed.

Lemma divide_nonzero (a b : R) : b <> 0 -> divide a b = Some (a / b).
Proof.
  intros H; unfold divide; destruct (Req_dec_T b 0);
    [contradiction | reflexivity].
Qed.

(** [deltaForce] is the zero vector on its early return and the force
    differential otherwise, and leaves the particle as it found it. *)
Lemma deltaForce_run (p : Particle) (u w : Vector2f) :
  let d := del_elastic_of p u w in
  deltaForce u w p
  = (if less (m00 d) MATRIX_EPSILON && less (m01 d) MATRIX_EPSILON
        && less (m10 d) MATRIX_EPSILON && less (m11 d) MATRIX_EPSILON
     then Some (Vec.fill 0) else force_differential p u w, p).
Proof.
  intros d; subst d.
  unfold deltaForce, force_differential, polar_s_trace; unfold bind at 1.
  change (read def_elastic p) with (def_elastic p, p).
  cbv beta zeta; cbn [fst snd].
  fold (del_elastic_of p u w).
  match goal with
  | |- (if ?c then _ else _) _ = _ => destruct c
  end; [reflexivity |].
  unfold bind at 1 2.
  change (read polar_r p) with (polar_r p, p).
  cbv beta zeta; cbn [fst snd].
  change (read polar_s p) with (polar_s p, p).
  cbv beta zeta; cbn [fst snd].
  match goal with
  | |- (match ?c with Some _ => _ | None => _ end) _ = _ => destruct c
  end; reflexivity.
Qed.

Lemma deltaForce_early (p : Particle) (u w : Vector2f) :
  early_out p u w -> result (deltaForce u w) p = Some (Vec.fill 0).
Proof.
  intros H; apply early_out_test in H; cbv zeta in H.
  unfold result; rewrite deltaForce_run; cbv zeta; rewrite H; reflexivity.
Qed.

Lemma deltaForce_late (p : Particle) (u w : Vector2f) :
  ~ early_out p u w -> result (deltaForce u w) p = force_differential p u w.
Proof.
  intros H.
  unfold result; rewrite deltaForce_run; cbv zeta.
  destruct (less (m00 (del_elastic_of p u w)) MATRIX_EPSILON
            && less (m01 (del_elastic_of p u w)) MATRIX_EPSILON
            && less (m10 (del_elastic_of p u w)) MATRIX_EPSILON
            && less (m11 (del_elastic_of p u w)) MATRIX_EPSILON) eqn:E;
    [| reflexivity].
  exfalso; apply H; apply early_out_test; exact E.
Qed.

(** Past the early return there is a result exactly when the divisor is
    not zero. *)
Lemma force_differential_defined (p : Particle) (u w : Vector2f) :
  polar_s_trace p <> 0 -> exists f, force_differential p u w = Some f.
Proof.
  intros Ht; unfold force_differential.
  rewrite (divide_nonzero _ _ Ht); eexists; reflexivity.
Qed.

Lemma force_differential_undefined (p : Particle) (u w : Vector2f) :
  polar_s_trace p = 0 -> force_differential p u w = None.
Proof.
  intros Ht; unfold force_differential.
  rewrite (divide_zero _ _ Ht); reflexivity.
Qed.

(** Where it has a result, the force differential is linear in [u]. *)
Lemma force_differential_linear (p : Particle) (w u1 u2 : Vector2f)
  (a b : R) :
  polar_s_trace p <> 0 ->
  force_differential p (Vec.add (Vec.scale a u1) (Vec.scale b u2)) w
  = combine a b (force_differential p u1 w) (force_differential p u2 w).
Proof.
  intros Ht; unfold force_differential.
  rewrite !(divide_nonzero _ _ Ht).
  unfold combine, del_elastic_of.
  f_equal; entrywise; unfold Rdiv; ring.
Qed.

(** C4.  Zero short-circuit.  When each of the four entries of
    [del_elastic = TIMESTEP * outer(u, weight_grad) * def_elastic] compares
    [<] against [MATRIX_EPSILON], a signed comparison with no absolute
    value, [deltaForce] returns the zero vector exactly; in particular,
    for a positive [MATRIX_EPSILON], it does whenever the four entries are
    at most [- bound], however large the magnitude [bound] is. *)
Theorem deltaForce_zero_short_circuit (p : Particle) (u w : Vector2f) :
  let d := del_elastic_of p u w in
  (m00 d < MATRIX_EPSILON -> m01 d < MATRIX_EPSILON ->
   m10 d < MATRIX_EPSILON -> m11 d < MATRIX_EPSILON ->
   result (deltaForce u w) p = Some (mkVector2f 0 0))
  /\ (forall bound : R,
       0 < MATRIX_EPSILON -> 0 <= bound ->
       m00 d <= - bound -> m01 d <= - bound ->
       m10 d <= - bound -> m11 d <= - bound ->
       result (deltaForce u w) p = Some (mkVector2f 0 0)).
Proof.
  intros d; subst d.
  split.
  - intros H00 H01 H10 H11.
    apply deltaForce_early; repeat split; assumption.
  - intros bound Heps Hb H00 H01 H10 H11.
    apply deltaForce_early; repeat split; lra.
Qed.

(** C2, as the code has it.  For a fixed particle whose divisor
    [polar_s[0][0] + polar_s[1][1]] is not zero and a fixed [weight_grad],
    [deltaForce] is linear in [u] over the inputs on which it does not
    take its early return: when none of the three calls takes it, the
    three results are vectors of numbers and
    [deltaForce(a*u1 + b*u2, w) = a*deltaForce(u1, w) +
    b*deltaForce(u2, w)]. *)
Theorem deltaForce_linear_past_early_return (p : Particle)
  (w u1 u2 : Vector2f) (a b : R) :
  polar_s_trace p <> 0 ->
  ~ early_out p (Vec.add (Vec.scale a u1) (Vec.scale b u2)) w ->
  ~ early_out p u1 w -> ~ early_out p u2 w ->
  exists f1 f2 : Vector2f,
    result (deltaForce u1 w) p = Some f1
    /\ result (deltaForce u2 w) p = Some f2
    /\ result (deltaForce (Vec.add (Vec.scale a u1) (Vec.scale b u2)) w) p
       = Some (Vec.add (Vec.scale a f1) (Vec.scale b f2)).
Proof.
  intros Ht H H1 H2.
  rewrite !deltaForce_late by assumption.
  rewrite (force_differential_linear p w u1 u2 a b Ht).
  destruct (force_differential_defined p u1 w Ht) as [f1 E1].
  destruct (force_differential_defined p u2 w Ht) as [f2 E2].
  exists f1, f2; rewrite E1, E2.
  repeat split; reflexivity.
Qed.

(** C9.  The force model is read-only.  [cauchyStress] and [deltaForce]
    leave every field of the particle as it was, so a call repeated on the
    same particle with the same arguments, also after calls of the
    other method, returns the same result. *)
Theorem force_model_read_only (p : Particle) (u w : Vector2f) :
  after cauchyStress p = p
  /\ after (deltaForce u w) p = p
  /\ result cauchyStress (after cauchyStress p) = result cauchyStress p
  /\ result (deltaForce u w) (after (deltaForce u w) p)
     = result (deltaForce u w) p
  /\ result cauchyStress (after (deltaForce u w) p) = result cauchyStress p
  /\ result (deltaForce u w) (after cauchyStress p)
     = result (deltaForce u w) p.
Proof.
  assert (Hc : after cauchyStress p = p) by reflexivity.
  assert (Hd : after (deltaForce u w) p = p)
    by (unfold after; rewrite deltaForce_run; reflexivity).
  rewrite Hc, Hd.
  repeat split; reflexivity.
Qed.

(** ** More matrix algebra *)

Lemma transpose_mul (a b : Matrix2f) :
  Mat.transpose (a ** b) = Mat.transpose b ** Mat.transpose a.
Proof. entrywise; ring. Qed.

Lemma transpose_involutive (a : Matrix2f) :
  Mat.transpose (Mat.transpose a) = a.
Proof. entrywise; reflexivity. Qed.

Lemma transpose_diag_product (a : Matrix2f) (e : Vector2f) :
  Mat.transpose (Mat.diag_product a e) = Mat.diag e ** Mat.transpose a.
Proof. entrywise; ring. Qed.

Lemma diag_product_inv_mul (a : Matrix2f) (e : Vector2f) :
  Mat.diag_product_inv a e = a ** Mat.diag_product_inv Mat.identity e.
Proof. entrywise; unfold Rdiv; ring. Qed.

Lemma diag_inverse_l (e : Vector2f) :
  v0 e <> 0 -> v1 e <> 0 ->
  Mat.diag_product_inv Mat.identity e ** Mat.diag e = Mat.identity.
Proof. intros H0 H1; entrywise; field; repeat split; assumption. Qed.

Lemma sub_mul (a b c : Matrix2f) : (a -m b) ** c = a ** c -m b ** c.
Proof. entrywise; ring. Qed.

Lemma determinant_mul (a b : Matrix2f) :
  Mat.determinant (a ** b) = Mat.determinant a * Mat.determinant b.
Proof. unfold Mat.determinant; simpl; ring. Qed.

Lemma determinant_transpose (a : Matrix2f) :
  Mat.determinant (Mat.transpose a) = Mat.determinant a.
Proof. unfold Mat.determinant; simpl; ring. Qed.

Lemma determinant_diag_product (a : Matrix2f) (e : Vector2f) :
  Mat.determinant (Mat.diag_product a e)
  = Mat.determinant a * (v0 e * v1 e).
Proof. unfold Mat.determinant; simpl; ring. Qed.

(** The determinant of an orthogonal matrix is 1 or -1. *)
Lemma orthogonal_determinant (a : Matrix2f) :
  Mat.transpose a ** a = Mat.identity ->
  Mat.determinant a = 1 \/ Mat.determinant a = - 1.
Proof.
  intros H.
  apply (f_equal Mat.determinant) in H.
  rewrite determinant_mul, determinant_transpose in H.
  replace (Mat.determinant Mat.identity) with 1 in H
    by (unfold Mat.determinant; simpl; ring).
  assert (Hz : (Mat.determinant a - 1) * (Mat.determinant a + 1) = 0)
    by nra.
  apply Rmult_integral in Hz; destruct Hz; [left | right]; lra.
Qed.

(** ** Properties of [updatePos] *)

(** One call adds [TIMESTEP * velocity] to [position] and writes no other
    field. *)
Lemma updatePos_after (p : Particle) :
  after updatePos p
  = set_position (Vec.add (position p) (Vec.scale TIMESTEP (velocity p))) p.
Proof. reflexivity. Qed.


(** ** More properties of [updateGradient] *)

(** X2.  The two integrators commute: [updatePos] and [updateGradient]
    write disjoint fields and neither reads what the other writes, so
    the order in which a step calls them does not matter. *)
Theorem updatePos_updateGradient_commute (p : Particle) :
  after updatePos (after updateGradient p)
  = after updateGradient (after updatePos p).
Proof.
  rewrite !updateGradient_after, !updatePos_after.
  destruct p; reflexivity.
Qed.

(** X3.  The velocity gradient is consumed.  [updateGradient] overwrites
    the field [velocity_gradient] with [TIMESTEP * velocity_gradient + I];
    a second call that the grid did not precede by a fresh write
    decomposes [(TIMESTEP * (TIMESTEP * g + I) + I) * def_elastic], not
    [(TIMESTEP * g + I) * def_elastic]; for [g = 0] that is
    [(TIMESTEP + 1) * def_elastic] where a fresh zero would give
    [def_elastic]. *)
Theorem updateGradient_consumes_velocity_gradient (p : Particle) :
  let p' := after updateGradient p in
  let g := velocity_gradient p in
  velocity_gradient p' = Mat.diag_sum (TIMESTEP .* g) 1
  /\ tentative p'
     = Mat.diag_sum (TIMESTEP .* Mat.diag_sum (TIMESTEP .* g) 1) 1
       ** def_elastic p'
  /\ (g = Mat.zero ->
      tentative p' = (TIMESTEP + 1) .* def_elastic p'
      /\ tentative (set_velocity_gradient Mat.zero p') = def_elastic p').
Proof.
  intros p' g; subst p' g.
  rewrite updateGradient_after.
  assert (Hvg : velocity_gradient (updated p)
                = Mat.diag_sum (TIMESTEP .* velocity_gradient p) 1)
    by reflexivity.
  unfold tentative.
  change (velocity_gradient (set_velocity_gradient Mat.zero (updated p)))
    with Mat.zero.
  change (def_elastic (set_velocity_gradient Mat.zero (updated p)))
    with (def_elastic (updated p)).
  rewrite Hvg.
  generalize (def_elastic (updated p)); intros fe.
  split; [reflexivity | split; [reflexivity |]].
  intros Hg; rewrite Hg.
  split; entrywise; ring.
Qed.

Lemma clamp_inside (e : R) :
  CRIT_COMPRESS <= e <= CRIT_STRETCH -> clamp e = e.
Proof.
  intros H.
  destruct (clamp_cases e) as [[H' _] | [[_ [H' _]] | [_ E]]];
    [lra | lra | exact E].
Qed.

Lemma clamp_positive (e : R) :
  0 < CRIT_COMPRESS -> CRIT_COMPRESS <= CRIT_STRETCH -> 0 < clamp e.
Proof. intros Hc Hcs; pose proof (clamp_in_range e Hcs); lra. Qed.

(** Putting the factors back together: the clamped stretch and its
    inverse cancel between orthogonal factors. *)
Lemma factors_recombine (W V F : Matrix2f) (e : Vector2f) :
  W ** Mat.transpose W = Mat.identity ->
  Mat.transpose V ** V = Mat.identity ->
  v0 e <> 0 -> v1 e <> 0 ->
  (Mat.diag_product W e ** Mat.transpose V)
  ** (Mat.diag_product_inv V e ** Mat.transpose W ** F) = F.
Proof.
  intros HW HV H0 H1.
  rewrite diag_product_mul, !mul_assoc.
  rewrite <- (mul_assoc (Mat.transpose V)), mul_diag_product_inv, HV.
  rewrite <- (mul_assoc (Mat.diag e)), diag_inverse by assumption.
  rewrite mul_identity_l, <- (mul_assoc W), HW.
  apply mul_identity_l.
Qed.

(** X4.  Polar decomposition.  When the decomposition primitive returns
    orthogonal factors, the [polar_r] and [polar_s] that [updateGradient]
    leaves are a polar decomposition of the [def_elastic] it leaves:
    [polar_r * polar_s = def_elastic], [polar_s] is symmetric and
    [polar_r] is orthogonal. *)
Theorem polar_decomposition (p : Particle) :
  let p' := after updateGradient p in
  svd_orthogonal (tentative p) ->
  polar_r p' ** polar_s p' = def_elastic p'
  /\ symmetric (polar_s p')
  /\ Mat.orthogonal (polar_r p').
Proof.
  intros p'; subst p'; rewrite updateGradient_after.
  intros [[HW HW'] [HV HV']].
  cbv beta iota zeta delta [updated polar_r polar_s def_elastic].
  set (a := tentative p) in *.
  set (e := clamped (svd_E a)).
  set (W := svd_W a) in *; set (V := svd_V a) in *.
  clearbody W V e.
  repeat split.
  - rewrite !diag_product_mul, !mul_assoc.
    rewrite <- (mul_assoc (Mat.transpose V)), HV.
    rewrite mul_identity_l; reflexivity.
  - unfold symmetric; simpl; ring.
  - rewrite transpose_mul, transpose_involutive, !mul_assoc.
    rewrite <- (mul_assoc (Mat.transpose W)), HW.
    rewrite mul_identity_l; exact HV'.
  - rewrite transpose_mul, transpose_involutive, !mul_assoc.
    rewrite <- (mul_assoc (Mat.transpose V)), HV.
    rewrite mul_identity_l; exact HW'.
Qed.

(** Inside the clamp interval the update only applies the increment. *)
Lemma updated_elastic (p : Particle) :
  let e := svd_E (tentative p) in
  0 < CRIT_COMPRESS ->
  svd_orthogonal (tentative p) -> svd_factors (tentative p) ->
  CRIT_COMPRESS <= v0 e <= CRIT_STRETCH ->
  CRIT_COMPRESS <= v1 e <= CRIT_STRETCH ->
  svd_e (updated p) = e
  /\ def_elastic (updated p) = tentative p
  /\ def_plastic (updated p) = def_plastic p.
Proof.
  intros e; subst e.
  intros Hc [[HW _] [_ HV]] Hf H0 H1.
  cbv beta iota zeta delta [updated svd_e def_plastic def_elastic].
  unfold svd_factors in Hf.
  set (a := tentative p) in *.
  assert (He : clamped (svd_E a) = svd_E a)
    by (entrywise; apply clamp_inside; assumption).
  rewrite He.
  set (e := svd_E a) in *; set (W := svd_W a) in *; set (V := svd_V a) in *.
  clearbody W V e.
  assert (Hfe : Mat.diag_product W e ** Mat.transpose V = a)
    by (rewrite diag_product_mul, <- mul_assoc; exact Hf).
  split; [reflexivity | split; [exact Hfe |]].
  rewrite <- Hf.
  rewrite diag_product_inv_mul, !mul_assoc.
  rewrite <- (mul_assoc (Mat.transpose W)), HW, mul_identity_l.
  rewrite <- (mul_assoc (Mat.diag_product_inv Mat.identity e)).
  rewrite diag_inverse_l by lra.
  rewrite mul_identity_l, <- mul_assoc, HV.
  apply mul_identity_l.
Qed.

(** X5.  An elastic step.  When the decomposition primitive returns
    orthogonal factors that multiply back to the matrix it was given and
    both singular values are within [[CRIT_COMPRESS, CRIT_STRETCH]], with
    [CRIT_COMPRESS > 0], [updateGradient] clamps nothing: the singular
    values are stored as returned, [def_elastic] becomes
    [(TIMESTEP * velocity_gradient + I) * def_elastic] and [def_plastic]
    stays as it was. *)
Theorem elastic_step (p : Particle) :
  let p' := after updateGradient p in
  let e := svd_E (tentative p) in
  0 < CRIT_COMPRESS ->
  svd_orthogonal (tentative p) -> svd_factors (tentative p) ->
  CRIT_COMPRESS <= v0 e <= CRIT_STRETCH ->
  CRIT_COMPRESS <= v1 e <= CRIT_STRETCH ->
  svd_e p' = e
  /\ def_elastic p' = tentative p
  /\ def_plastic p' = def_plastic p.
Proof.
  intros p' e; subst p' e; rewrite updateGradient_after.
  apply updated_elastic.
Qed.

(** Non-negative singular values of the identity are both 1. *)
Lemma identity_singular_values (W V : Matrix2f) (e : Vector2f) :
  Mat.orthogonal W -> Mat.orthogonal V ->
  W ** Mat.diag e ** Mat.transpose V = Mat.identity ->
  0 <= v0 e -> 0 <= v1 e ->
  v0 e = 1 /\ v1 e = 1.
Proof.
  intros [HW _] [HV HV'] Hf H0 H1.
  assert (Hd : Mat.diag e = Mat.transpose W ** V).
  { transitivity
      (Mat.transpose W ** (W ** Mat.diag e ** Mat.transpose V) ** V).
    - rewrite !mul_assoc, HV, mul_identity_r.
      rewrite <- mul_assoc, HW, mul_identity_l; reflexivity.
    - rewrite Hf, mul_identity_r; reflexivity. }
  assert (Hsq : Mat.diag e ** Mat.transpose (Mat.diag e) = Mat.identity).
  { rewrite Hd, transpose_mul, transpose_involutive, !mul_assoc.
    rewrite <- (mul_assoc V), HV', mul_identity_l; exact HW. }
  assert (E0 := f_equal m00 Hsq); assert (E1 := f_equal m11 Hsq).
  simpl in E0, E1.
  split; nra.
Qed.

(** X6.  The split keeps the total deformation.  When
    [0 < CRIT_COMPRESS <= CRIT_STRETCH] the clamped singular values are
    positive, so orthogonal factors alone give
    [def_elastic * def_plastic = f_all]; and then the cached determinants
    multiply to the determinant of the total deformation,
    [det_elastic * det_plastic
     = det((TIMESTEP * velocity_gradient + I) * def_elastic)
       * det(def_plastic)] with the matrices the call started from. *)
Theorem total_deformation_kept (p : Particle) :
  let p' := after updateGradient p in
  0 < CRIT_COMPRESS -> CRIT_COMPRESS <= CRIT_STRETCH ->
  svd_orthogonal (tentative p) ->
  0 < v0 (svd_e p') /\ 0 < v1 (svd_e p')
  /\ def_elastic p' ** def_plastic p' = result updateGradient p
  /\ det_elastic p' * det_plastic p'
     = Mat.determinant (tentative p) * Mat.determinant (def_plastic p).
Proof.
  intros p'; subst p'; rewrite updateGradient_after, updateGradient_result.
  intros Hc Hcs [[_ HW] [HV _]].
  assert (H0 : 0 < v0 (svd_e (updated p)))
    by (apply clamp_positive; assumption).
  assert (H1 : 0 < v1 (svd_e (updated p)))
    by (apply clamp_positive; assumption).
  assert (Hprod : def_elastic (updated p) ** def_plastic (updated p)
                  = tentative p ** def_plastic p).
  { revert H0 H1.
    cbv beta iota zeta delta [updated svd_e def_plastic def_elastic].
    intros H0 H1.
    apply factors_recombine; try assumption; lra. }
  split; [exact H0 | split; [exact H1 | split; [exact Hprod |]]].
  change (det_elastic (updated p))
    with (Mat.determinant (def_elastic (updated p))).
  change (det_plastic (updated p))
    with (Mat.determinant (def_plastic (updated p))).
  rewrite <- !determinant_mul, Hprod; reflexivity.
Qed.

(** X7.  The elastic determinant stays within the clamp bounds.  When
    [0 < CRIT_COMPRESS <= CRIT_STRETCH] and the decomposition primitive
    returns orthogonal factors, after [updateGradient] the magnitude of
    [det_elastic] is the product of the two clamped singular values, and
    so lies between [CRIT_COMPRESS^2] and [CRIT_STRETCH^2]. *)
Theorem det_elastic_bounded (p : Particle) :
  let p' := after updateGradient p in
  0 < CRIT_COMPRESS -> CRIT_COMPRESS <= CRIT_STRETCH ->
  svd_orthogonal (tentative p) ->
  Rabs (det_elastic p') = v0 (svd_e p') * v1 (svd_e p')
  /\ CRIT_COMPRESS * CRIT_COMPRESS <= Rabs (det_elastic p')
     <= CRIT_STRETCH * CRIT_STRETCH.
Proof.
  intros p'; subst p'; rewrite updateGradient_after.
  intros Hc Hcs [[HW _] [HV _]].
  apply orthogonal_determinant in HW, HV.
  cbv beta iota zeta delta [updated svd_e det_elastic].
  set (a := tentative p) in *.
  pose proof (clamp_in_range (v0 (svd_E a)) Hcs) as He0.
  pose proof (clamp_in_range (v1 (svd_E a)) Hcs) as He1.
  rewrite determinant_mul, determinant_diag_product, determinant_transpose.
  change (v0 (clamped (svd_E a))) with (clamp (v0 (svd_E a))).
  change (v1 (clamped (svd_E a))) with (clamp (v1 (svd_E a))).
  set (e0 := clamp (v0 (svd_E a))) in *.
  set (e1 := clamp (v1 (svd_E a))) in *.
  assert (Hpos : 0 < e0 * e1) by nra.
  assert (Habs : Rabs (Mat.determinant (svd_W a) * (e0 * e1)
                       * Mat.determinant (svd_V a)) = e0 * e1).
  { destruct HW as [-> | ->], HV as [-> | ->];
      unfold Rabs; destruct (Rcase_abs _); lra. }
  rewrite Habs.
  split; [reflexivity | split; nra].
Qed.

(** X8.  Hardening keeps the character of the material.  After
    [updateGradient] the ratio of the Lame parameters is the ratio of the
    rest parameters, [lambda * mu_s = lambda_s * mu]; a positive rest
    parameter never gives a negative hardened parameter, whatever the sign
    of [HARDENING] and of [1 - det_plastic]; and a plastic determinant of 1
    gives the rest parameters themselves. *)
Theorem hardening_keeps_sign_and_ratio (p : Particle) :
  let p' := after updateGradient p in
  lambda p' * mu_s p = lambda_s p * mu p'
  /\ (0 < mu_s p -> 0 <= mu p')
  /\ (0 < lambda_s p -> 0 <= lambda p')
  /\ (det_plastic p' = 1 -> mu p' = mu_s p /\ lambda p' = lambda_s p).
Proof.
  intros p'; subst p'; rewrite updateGradient_after.
  assert (Hmu : mu (updated p)
                = mu_s p * exp (HARDENING * (1 - det_plastic (updated p))))
    by reflexivity.
  assert (Hla : lambda (updated p)
                = lambda_s p * exp (HARDENING * (1 - det_plastic (updated p))))
    by reflexivity.
  rewrite Hmu, Hla.
  generalize (det_plastic (updated p)); intros j.
  pose proof (exp_pos (HARDENING * (1 - j))) as Hexp.
  repeat split.
  - ring.
  - intros H; apply Rmult_le_pos; lra.
  - intros H; apply Rmult_le_pos; lra.
  - subst j; replace (HARDENING * (1 - 1)) with 0 by ring.
    rewrite exp_0; ring.
  - subst j; replace (HARDENING * (1 - 1)) with 0 by ring.
    rewrite exp_0; ring.
Qed.

(** X9.  What never changes, and what stays consistent.  Whatever calls
    of the methods and writes of [volume] and [velocity_gradient] take a
    particle [p] to [q]: [mass], [mu_s] and [lambda_s] are those of [p],
    and if the cached determinants of [p] are the determinants of its
    gradients, so are those of [q]. *)
Theorem evolution_invariants (p q : Particle) :
  evolves p q ->
  (mass q = mass p /\ mu_s q = mu_s p /\ lambda_s q = lambda_s p)
  /\ (det_elastic p = Mat.determinant (def_elastic p) ->
      det_elastic q = Mat.determinant (def_elastic q))
  /\ (det_plastic p = Mat.determinant (def_plastic p) ->
      det_plastic q = Mat.determinant (def_plastic q)).
Proof.
  induction 1 as [| q _ IH | q _ IH | q _ IH | q u w _ IH | q vol _ IH
                  | q g _ IH].
  - repeat split; intros; assumption.
  - rewrite updateGradient_after.
    destruct IH as [[Hm [Hmu Hla]] _].
    repeat split; try reflexivity; assumption.
  - rewrite updatePos_after; exact IH.
  - exact IH.
  - replace (after (deltaForce u w) q) with q
      by (unfold after; rewrite deltaForce_run; reflexivity).
    exact IH.
  - exact IH.
  - exact IH.
Qed.

(** ** More properties of [cauchyStress] *)

(** The stress is symmetric as soon as [polar_r * def_elastic^T] is. *)
Lemma cauchyStress_symmetric_when (q : Particle) :
  symmetric (polar_r q ** Mat.transpose (def_elastic q)) ->
  symmetric (result cauchyStress q).
Proof.
  rewrite cauchyStress_result; unfold symmetric; simpl.
  intros H.
  apply Rminus_diag_uniq.
  transitivity
    (volume q * (2 * mu q)
     * ((m10 (polar_r q) * m00 (def_elastic q)
         + m11 (polar_r q) * m01 (def_elastic q))
        - (m00 (polar_r q) * m10 (def_elastic q)
           + m01 (polar_r q) * m11 (def_elastic q))));
    [ring | rewrite H; ring].
Qed.

(** X10.  The stress after an update is symmetric.  When the
    decomposition primitive returns orthogonal factors, the matrix
    [cauchyStress] returns after [updateGradient] is symmetric, whatever
    [volume] the grid has written in between. *)
Theorem cauchyStress_symmetric (p : Particle) (vol : R) :
  svd_orthogonal (tentative p) ->
  symmetric (result cauchyStress (set_volume vol (after updateGradient p))).
Proof.
  intros [_ [HV _]].
  apply cauchyStress_symmetric_when.
  rewrite updateGradient_after.
  change (polar_r (set_volume vol (updated p))) with (polar_r (updated p)).
  change (def_elastic (set_volume vol (updated p)))
    with (def_elastic (updated p)).
  cbv beta iota zeta delta [updated polar_r def_elastic].
  set (a := tentative p) in *.
  set (e := clamped (svd_E a)).
  set (W := svd_W a); set (V := svd_V a) in *.
  clearbody W V e.
  rewrite transpose_mul, transpose_involutive, transpose_diag_product.
  rewrite !mul_assoc, <- (mul_assoc (Mat.transpose V)), HV, mul_identity_l.
  unfold symmetric; simpl; ring.
Qed.

(** X11.  A rigid rotation carries no stress.  Whenever [def_elastic] is
    the rotation [polar_r] itself and the cached [det_elastic] is 1,
    [cauchyStress] returns the zero matrix, for every [volume], [mu] and
    [lambda]. *)
Theorem rigid_rotation_stress_free (p : Particle) :
  def_elastic p = polar_r p -> det_elastic p = 1 ->
  result cauchyStress p = Mat.zero.
Proof.
  intros Hr Hd.
  rewrite cauchyStress_result, Hr, Hd.
  entrywise; ring.
Qed.

(** ** More properties of [deltaForce] *)

(** What [deltaForce] returns when [del_elastic] is the zero matrix: the
    zero vector if the early return is taken or the divisor is not zero,
    and no vector of numbers otherwise. *)
Lemma deltaForce_zero_differential (p : Particle) (u w : Vector2f) :
  del_elastic_of p u w = Mat.zero ->
  (0 < MATRIX_EPSILON \/ polar_s_trace p <> 0 ->
   result (deltaForce u w) p = Some (mkVector2f 0 0))
  /\ (MATRIX_EPSILON <= 0 -> polar_s_trace p = 0 ->
      result (deltaForce u w) p = None).
Proof.
  intros Hd.
  assert (Hearly : 0 < MATRIX_EPSILON -> early_out p u w)
    by (intros He; unfold early_out; rewrite Hd; simpl;
        repeat split; exact He).
  assert (Hlate : MATRIX_EPSILON <= 0 -> ~ early_out p u w)
    by (intros He [H0 _]; rewrite Hd in H0; simpl in H0; lra).
  assert (Hzero : polar_s_trace p <> 0 ->
                  force_differential p u w = Some (mkVector2f 0 0)).
  { intros Ht; unfold force_differential.
    rewrite (divide_nonzero _ _ Ht), Hd.
    f_equal; entrywise; unfold Rdiv; ring. }
  split.
  - intros [He | Ht].
    + apply deltaForce_early, Hearly, He.
    + destruct (Rlt_dec 0 MATRIX_EPSILON) as [He | He].
      * apply deltaForce_early, Hearly, He.
      * rewrite deltaForce_late by (apply Hlate; lra).
        apply Hzero, Ht.
  - intros He Ht.
    rewrite deltaForce_late by (apply Hlate, He).
    apply force_differential_undefined, Ht.
Qed.

(** X12.  No perturbation, no force, unless the division fails.  When [u]
    is zero or [weight_grad] is zero, [deltaForce] returns the zero vector
    if [MATRIX_EPSILON] is positive (the early return is taken) or the
    divisor [polar_s[0][0] + polar_s[1][1]] is not zero; with
    [MATRIX_EPSILON <= 0] and a zero divisor it divides zero by zero and
    returns no vector of numbers. *)
Theorem deltaForce_zero_input (p : Particle) (u w : Vector2f) :
  let zero := mkVector2f 0 0 in
  (0 < MATRIX_EPSILON \/ polar_s_trace p <> 0 ->
   result (deltaForce zero w) p = Some zero
   /\ result (deltaForce u zero) p = Some zero)
  /\ (MATRIX_EPSILON <= 0 -> polar_s_trace p = 0 ->
      result (deltaForce zero w) p = None
      /\ result (deltaForce u zero) p = None).
Proof.
  intros zero; subst zero.
  assert (Hu : del_elastic_of p (mkVector2f 0 0) w = Mat.zero)
    by (unfold del_elastic_of; entrywise; ring).
  assert (Hw : del_elastic_of p u (mkVector2f 0 0) = Mat.zero)
    by (unfold del_elastic_of; entrywise; ring).
  destruct (deltaForce_zero_differential p _ _ Hu) as [Su Nu].
  destruct (deltaForce_zero_differential p _ _ Hw) as [Sw Nw].
  split.
  - intros H; split; [apply Su | apply Sw]; exact H.
  - intros He Ht; split; [apply Nu | apply Nw]; assumption.
Qed.

(** The divisor after an update: the sum of the clamped singular values. *)
Lemma updated_polar_s_trace (p : Particle) :
  0 < CRIT_COMPRESS -> CRIT_COMPRESS <= CRIT_STRETCH ->
  svd_orthogonal (tentative p) ->
  0 < polar_s_trace (updated p).
Proof.
  intros Hc Hcs [_ [HV _]].
  apply orthogonal_columns in HV; destruct HV as [Hc0 Hc1].
  unfold polar_s_trace.
  cbv beta iota zeta delta [updated polar_s].
  set (a := tentative p) in *.
  pose proof (clamp_positive (v0 (svd_E a)) Hc Hcs) as He0.
  pose proof (clamp_positive (v1 (svd_E a)) Hc Hcs) as He1.
  simpl.
  replace (m00 (svd_V a) * clamp (v0 (svd_E a)) * m00 (svd_V a)
           + m01 (svd_V a) * clamp (v1 (svd_E a)) * m01 (svd_V a)
           + (m10 (svd_V a) * clamp (v0 (svd_E a)) * m10 (svd_V a)
              + m11 (svd_V a) * clamp (v1 (svd_E a)) * m11 (svd_V a)))
    with (clamp (v0 (svd_E a))
            * (m00 (svd_V a) * m00 (svd_V a) + m10 (svd_V a) * m10 (svd_V a))
          + clamp (v1 (svd_E a))
            * (m01 (svd_V a) * m01 (svd_V a) + m11 (svd_V a) * m11 (svd_V a)))
    by ring.
  rewrite Hc0, Hc1; lra.
Qed.

(** X15.  After an update [deltaForce] never divides by zero.  When
    [0 < CRIT_COMPRESS <= CRIT_STRETCH] and the decomposition primitive
    returns orthogonal factors, after [updateGradient], and whatever
    [volume] the grid writes then, [deltaForce] returns a vector of
    numbers for every [u] and [weight_grad]. *)
Theorem deltaForce_defined_after_update (p : Particle) (vol : R)
  (u w : Vector2f) :
  0 < CRIT_COMPRESS -> CRIT_COMPRESS <= CRIT_STRETCH ->
  svd_orthogonal (tentative p) ->
  exists f : Vector2f,
    result (deltaForce u w) (set_volume vol (after updateGradient p))
    = Some f.
Proof.
  intros Hc Hcs Ho.
  rewrite updateGradient_after.
  pose proof (updated_polar_s_trace p Hc Hcs Ho) as Ht.
  assert (Ht' : polar_s_trace (set_volume vol (updated p)) <> 0)
    by (change (polar_s_trace (set_volume vol (updated p)))
          with (polar_s_trace (updated p)); lra).
  revert Ht'; generalize (set_volume vol (updated p)); intros q Ht'.
  unfold result; rewrite deltaForce_run; cbv zeta; cbn [fst].
  match goal with
  | |- exists f, (if ?c then _ else _) = _ => destruct c
  end.
  - eexists; reflexivity.
  - apply force_differential_defined, Ht'.
Qed.

(** ** The constructor and the first step *)

(** X13.  What the constructor sets up, and what it leaves.  A constructed
    particle has caches that agree with each other:
    [polar_r * polar_s = def_elastic],
    [svd_w * diag(svd_e) * svd_v^T = def_elastic],
    [def_elastic * def_plastic = I] and both cached determinants are the
    determinants of the gradients.  It has the [volume], [mu], [lambda]
    and [velocity_gradient] that the memory held: the constructor stores
    its arguments in [lambda_s] and [mu_s] and assigns neither [lambda]
    nor [mu]. *)
Theorem Particle_new_consistent (p0 : Particle) (pos vel : Vector2f)
  (mass' lame_lambda lame_mu : R) :
  let fresh := after (Particle_new pos vel mass' lame_lambda lame_mu) p0 in
  (polar_r fresh ** polar_s fresh = def_elastic fresh
   /\ svd_w fresh ** Mat.diag (svd_e fresh) ** Mat.transpose (svd_v fresh)
      = def_elastic fresh
   /\ def_elastic fresh ** def_plastic fresh = Mat.identity
   /\ det_elastic fresh = Mat.determinant (def_elastic fresh)
   /\ det_plastic fresh = Mat.determinant (def_plastic fresh))
  /\ (mu_s fresh = lame_mu /\ lambda_s fresh = lame_lambda
      /\ mass fresh = mass')
  /\ (volume fresh = volume p0 /\ mu fresh = mu p0
      /\ lambda fresh = lambda p0
      /\ velocity_gradient fresh = velocity_gradient p0).
Proof.
  intros fresh; subst fresh.
  destruct p0.
  unfold Particle_new; run_steps.
  repeat split; try reflexivity; try (entrywise; ring);
    unfold Mat.determinant, Mat.identity; simpl; ring.
Qed.

(** X14.  A particle at rest stays at rest.  With a zero velocity
    gradient and an identity [def_elastic], bounds
    [0 < CRIT_COMPRESS <= 1 <= CRIT_STRETCH] and a decomposition of the
    identity into orthogonal factors and non-negative singular values
    that multiply back to it, [updateGradient] leaves [def_elastic],
    [polar_r] and [polar_s] at the identity, [def_plastic] as it was and
    both stored singular values at 1, and [cauchyStress] then returns the
    zero matrix. *)
Theorem rest_is_kept (p : Particle) :
  let p' := after updateGradient p in
  let e := svd_E Mat.identity in
  velocity_gradient p = Mat.zero -> def_elastic p = Mat.identity ->
  0 < CRIT_COMPRESS -> CRIT_COMPRESS <= 1 -> 1 <= CRIT_STRETCH ->
  svd_orthogonal Mat.identity -> svd_factors Mat.identity ->
  0 <= v0 e -> 0 <= v1 e ->
  def_elastic p' = Mat.identity
  /\ def_plastic p' = def_plastic p
  /\ svd_e p' = mkVector2f 1 1
  /\ polar_r p' = Mat.identity
  /\ polar_s p' = Mat.identity
  /\ result cauchyStress p' = Mat.zero.
Proof.
  intros p' e; subst p' e; rewrite updateGradient_after.
  intros Hg Hfe Hc Hc1 Hs1 Ho Hf H0 H1.
  assert (Ht : tentative p = Mat.identity)
    by (unfold tentative; rewrite Hg, Hfe; entrywise; ring).
  destruct (identity_singular_values _ _ _ (proj1 Ho) (proj2 Ho) Hf H0 H1)
    as [E0 E1].
  assert (He : svd_E Mat.identity = mkVector2f 1 1)
    by (entrywise; assumption).
  assert (Hwv : svd_W Mat.identity ** Mat.transpose (svd_V Mat.identity)
                = Mat.identity).
  { unfold svd_factors in Hf; rewrite He in Hf.
    replace (Mat.diag (mkVector2f 1 1)) with Mat.identity in Hf
      by reflexivity.
    rewrite mul_identity_r in Hf; exact Hf. }
  pose proof (updated_elastic p) as Hel; cbv zeta in Hel.
  rewrite Ht in Hel.
  destruct (Hel Hc Ho Hf) as [Ee [Ede Edp]]; try (rewrite ?E0, ?E1; lra).
  assert (Er : polar_r (updated p) = Mat.identity).
  { change (polar_r (updated p))
      with (svd_W (tentative p) ** Mat.transpose (svd_V (tentative p))).
    rewrite Ht; exact Hwv. }
  assert (Es : polar_s (updated p) = Mat.identity).
  { change (polar_s (updated p))
      with (Mat.diag_product (svd_V (tentative p)) (svd_e (updated p))
            ** Mat.transpose (svd_V (tentative p))).
    rewrite Ee, He, Ht.
    destruct Ho as [_ [_ HV]].
    transitivity
      (svd_V Mat.identity ** Mat.transpose (svd_V Mat.identity));
      [entrywise; ring | exact HV]. }
  rewrite Ee, He.
  repeat split; try assumption.
  rewrite cauchyStress_result.
  change (det_elastic (updated p))
    with (Mat.determinant (def_elastic (updated p))).
  rewrite Ede, Er.
  entrywise; ring.
Qed.

End Methods.

(** ** The properties at the sample data *)

(** Entrywise reasoning, as in the section above. *)
Ltac entrywise :=
  first [ apply Matrix2f_ext | apply Vector2f_ext ];
  unfold Mat.frobeniusInnerProduct, Mat.determinant; simpl.

Lemma identity_orthogonal : Mat.orthogonal Mat.identity.
Proof. split; entrywise; ring. Qed.

Lemma sample_svd_orthogonal (a : Matrix2f) :
  svd_orthogonal Sample.svd a.
Proof. split; exact identity_orthogonal. Qed.

(** The methods at the sample constants. *)
Notation "'sample_updateGradient'" :=
  (updateGradient Sample.TIMESTEP Sample.CRIT_COMPRESS Sample.CRIT_STRETCH
     Sample.HARDENING Sample.svd) (only parsing).
Notation "'sample_deltaForce'" :=
  (deltaForce Sample.TIMESTEP Sample.MATRIX_EPSILON) (only parsing).
Notation "'sample_tentative'" := (tentative Sample.TIMESTEP) (only parsing).

(** Settles the clamps of a goal at the sample constants. *)
Ltac settle_clamps :=
  repeat match goal with
  | |- context [clamp ?c ?s ?e] =>
      let H := fresh "H" in
      destruct (clamp_cases c s e) as [[H ->] | [[H [? ->]] | [H ->]]];
      unfold Sample.CRIT_COMPRESS, Sample.CRIT_STRETCH, Sample.TIMESTEP in *;
      simpl in *; try lra
  end.

Lemma clamping_invariant_witness :
  let p' := after sample_updateGradient Sample.squeezed in
  let e := Vec.get (svd_E Sample.svd (sample_tentative Sample.squeezed)) 0 in
  (Sample.CRIT_COMPRESS <= 1 /\ 1 <= Sample.CRIT_STRETCH /\ (0 < 2)%nat)
  /\ Sample.CRIT_COMPRESS <= Vec.get (svd_e p') 0 <= Sample.CRIT_STRETCH
  /\ (e < Sample.CRIT_COMPRESS ->
      Vec.get (svd_e p') 0 = Sample.CRIT_COMPRESS)
  /\ (e > Sample.CRIT_STRETCH ->
      Vec.get (svd_e p') 0 = Sample.CRIT_STRETCH)
  /\ (Sample.CRIT_COMPRESS <= e <= Sample.CRIT_STRETCH ->
      Vec.get (svd_e p') 0 = e)
  /\ polar_s p'
     = Mat.diag_product (svd_v p') (svd_e p') ** Mat.transpose (svd_v p')
  /\ def_elastic p'
     = Mat.diag_product (svd_w p') (svd_e p') ** Mat.transpose (svd_v p')
  /\ def_plastic p'
     = Mat.diag_product_inv (svd_v p') (svd_e p') ** Mat.transpose (svd_w p')
       ** result sample_updateGradient Sample.squeezed.
Proof.
  assert (Hc : Sample.CRIT_COMPRESS <= 1) by (unfold Sample.CRIT_COMPRESS; lra).
  assert (Hs : 1 <= Sample.CRIT_STRETCH) by (unfold Sample.CRIT_STRETCH; lra).
  assert (Hi : (0 < 2)%nat) by (repeat constructor).
  split; [exact (conj Hc (conj Hs Hi)) |].
  exact (clamping_invariant Sample.TIMESTEP Sample.CRIT_COMPRESS
           Sample.CRIT_STRETCH Sample.HARDENING Sample.svd
           Sample.squeezed 0 Hc Hs Hi).
Defined.

(** The squeezed particle after one update: the first singular value is
    clamped up to [CRIT_COMPRESS], the second is kept. *)
Lemma squeezed_svd_e :
  svd_e (after sample_updateGradient Sample.squeezed)
  = mkVector2f Sample.CRIT_COMPRESS 1.
Proof.
  rewrite updateGradient_after.
  unfold updated, clamped, svd_E, svd_V, svd_W, tentative; simpl.
  settle_clamps; entrywise; lra.
Qed.

Lemma rest_svd_e :
  svd_e (after sample_updateGradient Sample.rest) = mkVector2f 1 1.
Proof.
  rewrite updateGradient_after.
  unfold updated, clamped, svd_E, svd_V, svd_W, tentative; simpl.
  settle_clamps; entrywise; lra.
Qed.

Lemma reconstruction_invariant_witness :
  let p' := after sample_updateGradient Sample.squeezed in
  let f_all := result sample_updateGradient Sample.squeezed in
  (svd_orthogonal Sample.svd (sample_tentative Sample.squeezed)
   /\ v0 (svd_e p') <> 0 /\ v1 (svd_e p') <> 0)
  /\ def_elastic p' ** def_plastic p' = f_all
  /\ f_all = sample_tentative Sample.squeezed ** def_plastic Sample.squeezed.
Proof.
  assert (Ho : svd_orthogonal Sample.svd (sample_tentative Sample.squeezed))
    by apply sample_svd_orthogonal.
  assert (H0 : v0 (svd_e (after sample_updateGradient Sample.squeezed)) <> 0)
    by (rewrite squeezed_svd_e; unfold Sample.CRIT_COMPRESS; simpl; lra).
  assert (H1 : v1 (svd_e (after sample_updateGradient Sample.squeezed)) <> 0)
    by (rewrite squeezed_svd_e; simpl; lra).
  split; [exact (conj Ho (conj H0 H1)) |].
  exact (reconstruction_invariant Sample.TIMESTEP Sample.CRIT_COMPRESS
           Sample.CRIT_STRETCH Sample.HARDENING Sample.svd
           Sample.squeezed Ho H0 H1).
Defined.

Lemma polar_s_trace_positive_witness :
  let p' := after sample_updateGradient Sample.squeezed in
  (0 < Sample.CRIT_COMPRESS /\ Sample.CRIT_COMPRESS <= Sample.CRIT_STRETCH
   /\ svd_orthogonal Sample.svd (sample_tentative Sample.squeezed))
  /\ m00 (polar_s p') + m11 (polar_s p') = v0 (svd_e p') + v1 (svd_e p')
  /\ 2 * Sample.CRIT_COMPRESS <= m00 (polar_s p') + m11 (polar_s p')
  /\ m00 (polar_s p') + m11 (polar_s p') <> 0.
Proof.
  assert (Hc : 0 < Sample.CRIT_COMPRESS) by (unfold Sample.CRIT_COMPRESS; lra).
  assert (Hcs : Sample.CRIT_COMPRESS <= Sample.CRIT_STRETCH)
    by (unfold Sample.CRIT_COMPRESS, Sample.CRIT_STRETCH; lra).
  assert (Ho : svd_orthogonal Sample.svd (sample_tentative Sample.squeezed))
    by apply sample_svd_orthogonal.
  split; [exact (conj Hc (conj Hcs Ho)) |].
  exact (polar_s_trace_positive Sample.TIMESTEP Sample.CRIT_COMPRESS
           Sample.CRIT_STRETCH Sample.HARDENING Sample.svd
           Sample.squeezed Hc Hcs Ho).
Defined.

Lemma rest_det_plastic :
  det_plastic (after sample_updateGradient Sample.rest) = 1.
Proof.
  rewrite updateGradient_after.
  unfold updated, clamped, svd_E, svd_V, svd_W, tentative, Mat.determinant;
    simpl.
  settle_clamps; field.
Qed.

Lemma squeezed_det_plastic :
  det_plastic (after sample_updateGradient Sample.squeezed) = 500 / 981.
Proof.
  rewrite updateGradient_after.
  unfold updated, clamped, svd_E, svd_V, svd_W, tentative, Mat.determinant;
    simpl.
  settle_clamps; unfold Sample.CRIT_COMPRESS; field.
Qed.

Lemma hardening_law_witness :
  let p' := after sample_updateGradient Sample.rest in
  let q' := after sample_updateGradient Sample.squeezed in
  (0 <= Sample.HARDENING /\ 0 <= mu_s Sample.rest
   /\ 0 <= lambda_s Sample.rest
   /\ mu_s Sample.squeezed = mu_s Sample.rest
   /\ lambda_s Sample.squeezed = lambda_s Sample.rest
   /\ det_plastic q' <= det_plastic p')
  /\ mu p' = mu_s Sample.rest * exp (Sample.HARDENING * (1 - det_plastic p'))
  /\ lambda p'
     = lambda_s Sample.rest * exp (Sample.HARDENING * (1 - det_plastic p'))
  /\ mu p' <= mu q' /\ lambda p' <= lambda q'.
Proof.
  assert (Hh : 0 <= Sample.HARDENING) by (unfold Sample.HARDENING; lra).
  assert (Hm : 0 <= mu_s Sample.rest) by (simpl; lra).
  assert (Hl : 0 <= lambda_s Sample.rest) by (simpl; lra).
  assert (Hqm : mu_s Sample.squeezed = mu_s Sample.rest) by reflexivity.
  assert (Hql : lambda_s Sample.squeezed = lambda_s Sample.rest)
    by reflexivity.
  assert (Hdet : det_plastic (after sample_updateGradient Sample.squeezed)
                 <= det_plastic (after sample_updateGradient Sample.rest))
    by (rewrite squeezed_det_plastic, rest_det_plastic; lra).
  destruct (hardening_law Sample.TIMESTEP Sample.CRIT_COMPRESS
              Sample.CRIT_STRETCH Sample.HARDENING Sample.svd Sample.rest)
    as [Emu [Ela [Hmono _]]].
  split; [exact (conj Hh (conj Hm (conj Hl (conj Hqm (conj Hql Hdet))))) |].
  split; [exact Emu | split; [exact Ela |]].
  exact (Hmono Sample.squeezed Hh Hm Hl Hqm Hql Hdet).
Defined.

(** At the strained particle the cache is the determinant, and the stress
    is not zero. *)
Lemma cauchyStress_formula_witness :
  det_elastic Sample.strained = Mat.determinant (def_elastic Sample.strained)
  /\ result cauchyStress Sample.strained = stress_formula Sample.strained
  /\ stress_formula Sample.strained = mkMatrix2f 6 0 0 2.
Proof.
  assert (H : det_elastic Sample.strained
              = Mat.determinant (def_elastic Sample.strained))
    by (unfold Mat.determinant; simpl; lra).
  split; [exact H |].
  split;
    [exact (proj1 (proj2 (proj2
              (cauchyStress_formula Sample.TIMESTEP Sample.CRIT_COMPRESS
                 Sample.CRIT_STRETCH Sample.HARDENING Sample.svd
                 Sample.strained))) H) |].
  unfold stress_formula; entrywise; lra.
Defined.

(** C1, as stated, fails.  A particle made by the default constructor is
    whatever the memory held; where that is the particle at rest with a
    cached [det_elastic] of 4, [def_elastic] and [polar_r] are the
    identity and [det(Fe)] is 1, so the formula gives the zero matrix,
    and [cauchyStress] returns [12 * I]. *)
Lemma cauchyStress_reads_the_cache :
  let p := after Particle_default Sample.stale in
  result cauchyStress p = mkMatrix2f 12 0 0 12
  /\ stress_formula p = Mat.zero
  /\ result cauchyStress p <> stress_formula p.
Proof.
  intros p.
  assert (E1 : result cauchyStress p = mkMatrix2f 12 0 0 12)
    by (unfold p; rewrite cauchyStress_result; entrywise; lra).
  assert (E2 : stress_formula p = Mat.zero)
    by (unfold p, stress_formula; entrywise; lra).
  split; [exact E1 | split; [exact E2 |]].
  rewrite E1, E2.
  intros H; apply (f_equal m00) in H; simpl in H; lra.
Qed.

(** A perturbation against the first axis, large in magnitude. *)
Lemma deltaForce_zero_short_circuit_witness :
  let u := mkVector2f (- 1000000) 0 in
  let w := mkVector2f 1 0 in
  let d := del_elastic_of Sample.TIMESTEP Sample.rest u w in
  (m00 d < Sample.MATRIX_EPSILON /\ m01 d < Sample.MATRIX_EPSILON
   /\ m10 d < Sample.MATRIX_EPSILON /\ m11 d < Sample.MATRIX_EPSILON)
  /\ m00 d = - 100
  /\ result (sample_deltaForce u w) Sample.rest = Some (mkVector2f 0 0).
Proof.
  intros u w d.
  assert (H00 : m00 d < Sample.MATRIX_EPSILON)
    by (unfold d, u, w, Sample.MATRIX_EPSILON, Sample.TIMESTEP; simpl; lra).
  assert (H01 : m01 d < Sample.MATRIX_EPSILON)
    by (unfold d, u, w, Sample.MATRIX_EPSILON, Sample.TIMESTEP; simpl; lra).
  assert (H10 : m10 d < Sample.MATRIX_EPSILON)
    by (unfold d, u, w, Sample.MATRIX_EPSILON, Sample.TIMESTEP; simpl; lra).
  assert (H11 : m11 d < Sample.MATRIX_EPSILON)
    by (unfold d, u, w, Sample.MATRIX_EPSILON, Sample.TIMESTEP; simpl; lra).
  split; [exact (conj H00 (conj H01 (conj H10 H11))) |].
  split; [unfold d, u, w, Sample.TIMESTEP; simpl; lra |].
  exact (proj1 (deltaForce_zero_short_circuit Sample.TIMESTEP
                  Sample.MATRIX_EPSILON Sample.rest u w) H00 H01 H10 H11).
Defined.

Lemma rest_polar_s_trace : polar_s_trace Sample.rest = 2.
Proof. unfold polar_s_trace; simpl; lra. Qed.

(** Three perturbations along the first axis, none of them cut off. *)
Lemma deltaForce_linear_past_early_return_witness :
  let w := mkVector2f 1 0 in
  let u1 := mkVector2f 1 0 in
  let u2 := mkVector2f 2 0 in
  let early := early_out Sample.TIMESTEP Sample.MATRIX_EPSILON Sample.rest in
  (polar_s_trace Sample.rest <> 0
   /\ ~ early (Vec.add (Vec.scale 3 u1) (Vec.scale 5 u2)) w
   /\ ~ early u1 w /\ ~ early u2 w)
  /\ exists f1 f2 : Vector2f,
       result (sample_deltaForce u1 w) Sample.rest = Some f1
       /\ result (sample_deltaForce u2 w) Sample.rest = Some f2
       /\ result
            (sample_deltaForce (Vec.add (Vec.scale 3 u1) (Vec.scale 5 u2)) w)
            Sample.rest
          = Some (Vec.add (Vec.scale 3 f1) (Vec.scale 5 f2)).
Proof.
  intros w u1 u2 early.
  assert (Ht : polar_s_trace Sample.rest <> 0)
    by (rewrite rest_polar_s_trace; lra).
  assert (H : ~ early (Vec.add (Vec.scale 3 u1) (Vec.scale 5 u2)) w)
    by (unfold early, early_out, Sample.TIMESTEP, Sample.MATRIX_EPSILON;
        simpl; lra).
  assert (H1 : ~ early u1 w)
    by (unfold early, early_out, Sample.TIMESTEP, Sample.MATRIX_EPSILON;
        simpl; lra).
  assert (H2 : ~ early u2 w)
    by (unfold early, early_out, Sample.TIMESTEP, Sample.MATRIX_EPSILON;
        simpl; lra).
  split; [exact (conj Ht (conj H (conj H1 H2))) |].
  exact (deltaForce_linear_past_early_return Sample.TIMESTEP
           Sample.MATRIX_EPSILON Sample.rest w u1 u2 3 5 Ht H H1 H2).
Defined.

(** Whatever the positive constants are, the early return cuts off a
    perturbation whose double it lets through: at the particle at rest,
    with [w = (1, 0)] and [u = (MATRIX_EPSILON / (2 * TIMESTEP), 0)],
    [deltaForce(u, w)] is zero and [deltaForce(2*u, w)] is not. *)
Lemma deltaForce_not_homogeneous (TIMESTEP MATRIX_EPSILON : R) :
  0 < TIMESTEP -> 0 < MATRIX_EPSILON ->
  let w := mkVector2f 1 0 in
  let u := mkVector2f (MATRIX_EPSILON / (2 * TIMESTEP)) 0 in
  let zero := mkVector2f 0 0 in
  result (deltaForce TIMESTEP MATRIX_EPSILON u w) Sample.rest = Some zero
  /\ result (deltaForce TIMESTEP MATRIX_EPSILON
               (Vec.add (Vec.scale 2 u) (Vec.scale 0 zero)) w) Sample.rest
     = Some (mkVector2f (3 * MATRIX_EPSILON) 0)
  /\ 3 * MATRIX_EPSILON <> 2 * 0 + 0 * 0.
Proof.
  intros Ht He w u zero.
  assert (Hd : TIMESTEP * (MATRIX_EPSILON / (2 * TIMESTEP))
               = MATRIX_EPSILON / 2) by (field; lra).
  assert (Htr : polar_s_trace Sample.rest <> 0)
    by (rewrite rest_polar_s_trace; lra).
  repeat split.
  - apply deltaForce_early.
    unfold early_out; simpl.
    replace (TIMESTEP * (MATRIX_EPSILON / (2 * TIMESTEP) * 1) * 1
             + TIMESTEP * (MATRIX_EPSILON / (2 * TIMESTEP) * 0) * 0)
      with (MATRIX_EPSILON / 2) by (rewrite <- Hd; ring).
    repeat split; lra.
  - rewrite deltaForce_late.
    + unfold force_differential; rewrite (divide_nonzero _ _ Htr).
      unfold polar_s_trace; f_equal; entrywise; field; lra.
    + unfold early_out; simpl.
      replace (TIMESTEP * ((2 * (MATRIX_EPSILON / (2 * TIMESTEP)) + 0 * 0) * 1)
                 * 1
               + TIMESTEP
                 * ((2 * (MATRIX_EPSILON / (2 * TIMESTEP)) + 0 * 0) * 0) * 0)
        with MATRIX_EPSILON by (field; lra).
      lra.
  - lra.
Qed.

(** C2, as stated, fails.  At the sample constants and the particle at
    rest, with [w = (1, 0)], [u1 = (1/1000, 0)] and [u2 = (0, 0)]: every
    entry of the [del_elastic] of [deltaForce(u1, w)] and of
    [deltaForce(u2, w)] is below [MATRIX_EPSILON], in magnitude too, so
    both calls return zero; [deltaForce(1000000000*u1 + 1*u2, w)] is past
    the early return and is [(300, 0)]. *)
Lemma deltaForce_not_linear :
  let w := mkVector2f 1 0 in
  let u1 := mkVector2f (1 / 1000) 0 in
  let u2 := mkVector2f 0 0 in
  let a := 1000000000 in
  let lhs :=
    result (sample_deltaForce (Vec.add (Vec.scale a u1) (Vec.scale 1 u2)) w)
      Sample.rest in
  let rhs :=
    combine a 1 (result (sample_deltaForce u1 w) Sample.rest)
                (result (sample_deltaForce u2 w) Sample.rest) in
  lhs = Some (mkVector2f 300 0) /\ rhs = Some (mkVector2f 0 0) /\ lhs <> rhs.
Proof.
  intros w u1 u2 a lhs rhs.
  assert (Htr : polar_s_trace Sample.rest <> 0)
    by (rewrite rest_polar_s_trace; lra).
  assert (E1 : result (sample_deltaForce u1 w) Sample.rest
               = Some (mkVector2f 0 0)).
  { apply deltaForce_early.
    unfold early_out, Sample.TIMESTEP, Sample.MATRIX_EPSILON; simpl; lra. }
  assert (E2 : result (sample_deltaForce u2 w) Sample.rest
               = Some (mkVector2f 0 0)).
  { apply deltaForce_early.
    unfold early_out, Sample.TIMESTEP, Sample.MATRIX_EPSILON; simpl; lra. }
  assert (E3 : lhs = Some (mkVector2f 300 0)).
  { unfold lhs.
    rewrite deltaForce_late
      by (unfold early_out, a, Sample.TIMESTEP, Sample.MATRIX_EPSILON;
          simpl; lra).
    unfold force_differential; rewrite (divide_nonzero _ _ Htr).
    unfold polar_s_trace, a, Sample.TIMESTEP; f_equal; entrywise; field. }
  assert (E4 : rhs = Some (mkVector2f 0 0)).
  { unfold rhs; rewrite E1, E2; unfold combine; f_equal; entrywise; ring. }
  repeat split; try assumption.
  rewrite E3, E4.
  intros H; injection H as H0; lra.
Qed.

(** ** The further properties at the sample data *)

Lemma sample_bounds :
  0 < Sample.CRIT_COMPRESS /\ Sample.CRIT_COMPRESS <= 1
  /\ 1 <= Sample.CRIT_STRETCH
  /\ Sample.CRIT_COMPRESS <= Sample.CRIT_STRETCH.
Proof. unfold Sample.CRIT_COMPRESS, Sample.CRIT_STRETCH; lra. Qed.

Lemma updateGradient_consumes_velocity_gradient_witness :
  let p' := after sample_updateGradient Sample.rest in
  velocity_gradient Sample.rest = Mat.zero
  /\ sample_tentative p' = (Sample.TIMESTEP + 1) .* def_elastic p'
  /\ sample_tentative (set_velocity_gradient Mat.zero p') = def_elastic p'.
Proof.
  assert (Hg : velocity_gradient Sample.rest = Mat.zero) by reflexivity.
  split; [exact Hg |].
  exact (proj2 (proj2 (updateGradient_consumes_velocity_gradient
                         Sample.TIMESTEP Sample.CRIT_COMPRESS
                         Sample.CRIT_STRETCH Sample.HARDENING Sample.svd
                         Sample.rest)) Hg).
Defined.

Lemma polar_decomposition_witness :
  let p' := after sample_updateGradient Sample.squeezed in
  svd_orthogonal Sample.svd (sample_tentative Sample.squeezed)
  /\ polar_r p' ** polar_s p' = def_elastic p'
  /\ symmetric (polar_s p')
  /\ Mat.orthogonal (polar_r p').
Proof.
  assert (Ho : svd_orthogonal Sample.svd (sample_tentative Sample.squeezed))
    by apply sample_svd_orthogonal.
  split; [exact Ho |].
  exact (polar_decomposition Sample.TIMESTEP Sample.CRIT_COMPRESS
           Sample.CRIT_STRETCH Sample.HARDENING Sample.svd
           Sample.squeezed Ho).
Defined.

Lemma elastic_step_witness :
  let p' := after sample_updateGradient Sample.stretched in
  let a := sample_tentative Sample.stretched in
  let e := svd_E Sample.svd a in
  (0 < Sample.CRIT_COMPRESS
   /\ svd_orthogonal Sample.svd a /\ svd_factors Sample.svd a
   /\ Sample.CRIT_COMPRESS <= v0 e <= Sample.CRIT_STRETCH
   /\ Sample.CRIT_COMPRESS <= v1 e <= Sample.CRIT_STRETCH)
  /\ svd_e p' = e /\ def_elastic p' = a
  /\ def_plastic p' = def_plastic Sample.stretched.
Proof.
  intros p' a e.
  assert (Hc : 0 < Sample.CRIT_COMPRESS) by apply sample_bounds.
  assert (Ho : svd_orthogonal Sample.svd a) by apply sample_svd_orthogonal.
  assert (Hf : svd_factors Sample.svd a)
    by (unfold svd_factors, a, tentative, Sample.TIMESTEP; entrywise; lra).
  assert (H0 : Sample.CRIT_COMPRESS <= v0 e <= Sample.CRIT_STRETCH)
    by (unfold e, a, tentative, Sample.TIMESTEP, Sample.CRIT_COMPRESS,
          Sample.CRIT_STRETCH; simpl; lra).
  assert (H1 : Sample.CRIT_COMPRESS <= v1 e <= Sample.CRIT_STRETCH)
    by (unfold e, a, tentative, Sample.TIMESTEP, Sample.CRIT_COMPRESS,
          Sample.CRIT_STRETCH; simpl; lra).
  split; [exact (conj Hc (conj Ho (conj Hf (conj H0 H1)))) |].
  exact (elastic_step Sample.TIMESTEP Sample.CRIT_COMPRESS
           Sample.CRIT_STRETCH Sample.HARDENING Sample.svd
           Sample.stretched Hc Ho Hf H0 H1).
Defined.

Lemma total_deformation_kept_witness :
  let p' := after sample_updateGradient Sample.squeezed in
  (0 < Sample.CRIT_COMPRESS /\ Sample.CRIT_COMPRESS <= Sample.CRIT_STRETCH
   /\ svd_orthogonal Sample.svd (sample_tentative Sample.squeezed))
  /\ 0 < v0 (svd_e p') /\ 0 < v1 (svd_e p')
  /\ def_elastic p' ** def_plastic p'
     = result sample_updateGradient Sample.squeezed
  /\ det_elastic p' * det_plastic p'
     = Mat.determinant (sample_tentative Sample.squeezed)
       * Mat.determinant (def_plastic Sample.squeezed).
Proof.
  assert (Hc : 0 < Sample.CRIT_COMPRESS) by apply sample_bounds.
  assert (Hcs : Sample.CRIT_COMPRESS <= Sample.CRIT_STRETCH)
    by apply sample_bounds.
  assert (Ho : svd_orthogonal Sample.svd (sample_tentative Sample.squeezed))
    by apply sample_svd_orthogonal.
  split; [exact (conj Hc (conj Hcs Ho)) |].
  exact (total_deformation_kept Sample.TIMESTEP Sample.CRIT_COMPRESS
           Sample.CRIT_STRETCH Sample.HARDENING Sample.svd
           Sample.squeezed Hc Hcs Ho).
Defined.

Lemma det_elastic_bounded_witness :
  let p' := after sample_updateGradient Sample.squeezed in
  (0 < Sample.CRIT_COMPRESS /\ Sample.CRIT_COMPRESS <= Sample.CRIT_STRETCH
   /\ svd_orthogonal Sample.svd (sample_tentative Sample.squeezed))
  /\ Rabs (det_elastic p') = v0 (svd_e p') * v1 (svd_e p')
  /\ Sample.CRIT_COMPRESS * Sample.CRIT_COMPRESS <= Rabs (det_elastic p')
     <= Sample.CRIT_STRETCH * Sample.CRIT_STRETCH.
Proof.
  assert (Hc : 0 < Sample.CRIT_COMPRESS) by apply sample_bounds.
  assert (Hcs : Sample.CRIT_COMPRESS <= Sample.CRIT_STRETCH)
    by apply sample_bounds.
  assert (Ho : svd_orthogonal Sample.svd (sample_tentative Sample.squeezed))
    by apply sample_svd_orthogonal.
  split; [exact (conj Hc (conj Hcs Ho)) |].
  exact (det_elastic_bounded Sample.TIMESTEP Sample.CRIT_COMPRESS
           Sample.CRIT_STRETCH Sample.HARDENING Sample.svd
           Sample.squeezed Hc Hcs Ho).
Defined.

(** The sign conditions at the squeezed particle, where the scale is
    [exp(5 * (1 - 500/981))]; the plastic determinant 1 at the particle at
    rest. *)
Lemma hardening_keeps_sign_and_ratio_witness :
  let p' := after sample_updateGradient Sample.rest in
  let q' := after sample_updateGradient Sample.squeezed in
  (0 < mu_s Sample.squeezed /\ 0 < lambda_s Sample.squeezed
   /\ det_plastic p' = 1)
  /\ (det_plastic q' = 500 / 981
      /\ lambda q' * mu_s Sample.squeezed = lambda_s Sample.squeezed * mu q'
      /\ 0 <= mu q' /\ 0 <= lambda q')
  /\ mu p' = mu_s Sample.rest /\ lambda p' = lambda_s Sample.rest.
Proof.
  assert (Hm : 0 < mu_s Sample.squeezed) by (simpl; lra).
  assert (Hl : 0 < lambda_s Sample.squeezed) by (simpl; lra).
  assert (Hd : det_plastic (after sample_updateGradient Sample.rest) = 1)
    by exact rest_det_plastic.
  destruct (hardening_keeps_sign_and_ratio Sample.TIMESTEP
              Sample.CRIT_COMPRESS Sample.CRIT_STRETCH Sample.HARDENING
              Sample.svd Sample.rest) as [_ [_ [_ Pd]]].
  destruct (hardening_keeps_sign_and_ratio Sample.TIMESTEP
              Sample.CRIT_COMPRESS Sample.CRIT_STRETCH Sample.HARDENING
              Sample.svd Sample.squeezed) as [Pr [Pm [Pl _]]].
  split; [exact (conj Hm (conj Hl Hd)) |].
  split;
    [exact (conj squeezed_det_plastic (conj Pr (conj (Pm Hm) (Pl Hl)))) |].
  exact (Pd Hd).
Defined.

Lemma evolution_invariants_witness :
  let q := after sample_updateGradient Sample.squeezed in
  (evolves Sample.TIMESTEP Sample.CRIT_COMPRESS Sample.CRIT_STRETCH
     Sample.HARDENING Sample.MATRIX_EPSILON Sample.svd Sample.rest q
   /\ det_elastic Sample.rest = Mat.determinant (def_elastic Sample.rest)
   /\ det_plastic Sample.rest = Mat.determinant (def_plastic Sample.rest))
  /\ (mass q = mass Sample.rest /\ mu_s q = mu_s Sample.rest
      /\ lambda_s q = lambda_s Sample.rest)
  /\ det_elastic q = Mat.determinant (def_elastic q)
  /\ det_plastic q = Mat.determinant (def_plastic q).
Proof.
  intros q.
  assert (He : evolves Sample.TIMESTEP Sample.CRIT_COMPRESS
                 Sample.CRIT_STRETCH Sample.HARDENING Sample.MATRIX_EPSILON
                 Sample.svd Sample.rest q).
  { apply evolves_updateGradient.
    apply (evolves_velocity_gradient _ _ _ _ _ _ _ Sample.rest).
    apply evolves_here. }
  assert (Hde : det_elastic Sample.rest
                = Mat.determinant (def_elastic Sample.rest))
    by (unfold Mat.determinant; simpl; lra).
  assert (Hdp : det_plastic Sample.rest
                = Mat.determinant (def_plastic Sample.rest))
    by (unfold Mat.determinant; simpl; lra).
  destruct (evolution_invariants Sample.TIMESTEP Sample.CRIT_COMPRESS
              Sample.CRIT_STRETCH Sample.HARDENING Sample.MATRIX_EPSILON
              Sample.svd Sample.rest q He) as [Hsame [Pe Pp]].
  split; [exact (conj He (conj Hde Hdp)) |].
  exact (conj Hsame (conj (Pe Hde) (Pp Hdp))).
Defined.

Lemma cauchyStress_symmetric_witness :
  svd_orthogonal Sample.svd (sample_tentative Sample.squeezed)
  /\ symmetric
       (result cauchyStress
          (set_volume 2 (after sample_updateGradient Sample.squeezed))).
Proof.
  assert (Ho : svd_orthogonal Sample.svd (sample_tentative Sample.squeezed))
    by apply sample_svd_orthogonal.
  split; [exact Ho |].
  exact (cauchyStress_symmetric Sample.TIMESTEP Sample.CRIT_COMPRESS
           Sample.CRIT_STRETCH Sample.HARDENING Sample.svd
           Sample.squeezed 2 Ho).
Defined.

Lemma rigid_rotation_stress_free_witness :
  (def_elastic Sample.turned = polar_r Sample.turned
   /\ det_elastic Sample.turned = 1)
  /\ result cauchyStress Sample.turned = Mat.zero.
Proof.
  assert (Hr : def_elastic Sample.turned = polar_r Sample.turned)
    by reflexivity.
  assert (Hd : det_elastic Sample.turned = 1) by reflexivity.
  split; [exact (conj Hr Hd) |].
  exact (rigid_rotation_stress_free Sample.turned Hr Hd).
Defined.

Lemma rest_is_kept_witness :
  let p' := after sample_updateGradient Sample.rest in
  let e := svd_E Sample.svd Mat.identity in
  (velocity_gradient Sample.rest = Mat.zero
   /\ def_elastic Sample.rest = Mat.identity
   /\ 0 < Sample.CRIT_COMPRESS /\ Sample.CRIT_COMPRESS <= 1
   /\ 1 <= Sample.CRIT_STRETCH
   /\ svd_orthogonal Sample.svd Mat.identity
   /\ svd_factors Sample.svd Mat.identity
   /\ 0 <= v0 e /\ 0 <= v1 e)
  /\ def_elastic p' = Mat.identity
  /\ def_plastic p' = def_plastic Sample.rest
  /\ svd_e p' = mkVector2f 1 1
  /\ polar_r p' = Mat.identity
  /\ polar_s p' = Mat.identity
  /\ result cauchyStress p' = Mat.zero.
Proof.
  intros p' e.
  assert (Hg : velocity_gradient Sample.rest = Mat.zero) by reflexivity.
  assert (Hfe : def_elastic Sample.rest = Mat.identity) by reflexivity.
  assert (Hc : 0 < Sample.CRIT_COMPRESS) by apply sample_bounds.
  assert (Hc1 : Sample.CRIT_COMPRESS <= 1) by apply sample_bounds.
  assert (Hs1 : 1 <= Sample.CRIT_STRETCH) by apply sample_bounds.
  assert (Ho : svd_orthogonal Sample.svd Mat.identity)
    by apply sample_svd_orthogonal.
  assert (Hf : svd_factors Sample.svd Mat.identity)
    by (unfold svd_factors; entrywise; lra).
  assert (H0 : 0 <= v0 e) by (unfold e; simpl; lra).
  assert (H1 : 0 <= v1 e) by (unfold e; simpl; lra).
  split;
    [exact (conj Hg (conj Hfe (conj Hc (conj Hc1 (conj Hs1
              (conj Ho (conj Hf (conj H0 H1)))))))) |].
  exact (rest_is_kept Sample.TIMESTEP Sample.CRIT_COMPRESS
           Sample.CRIT_STRETCH Sample.HARDENING Sample.svd
           Sample.rest Hg Hfe Hc Hc1 Hs1 Ho Hf H0 H1).
Defined.

(** At the sample constants the early return takes the zero input; with
    [MATRIX_EPSILON = 0] and the particle whose [polar_s] has trace zero
    there is no vector of numbers. *)
Lemma deltaForce_zero_input_witness :
  let zero := mkVector2f 0 0 in
  let w := mkVector2f 1 2 in
  (0 < Sample.MATRIX_EPSILON /\ polar_s_trace Sample.traceless = 0)
  /\ (result (sample_deltaForce zero w) Sample.traceless = Some zero
      /\ result (sample_deltaForce w zero) Sample.traceless = Some zero)
  /\ (result (deltaForce Sample.TIMESTEP 0 zero w) Sample.traceless = None
      /\ result (deltaForce Sample.TIMESTEP 0 w zero) Sample.traceless
         = None).
Proof.
  intros zero w.
  assert (He : 0 < Sample.MATRIX_EPSILON)
    by (unfold Sample.MATRIX_EPSILON; lra).
  assert (Ht : polar_s_trace Sample.traceless = 0)
    by (unfold polar_s_trace; simpl; lra).
  assert (H0 : 0 <= 0) by lra.
  split; [exact (conj He Ht) |].
  split.
  - exact (proj1 (deltaForce_zero_input Sample.TIMESTEP
                    Sample.MATRIX_EPSILON Sample.traceless w w)
             (or_introl He)).
  - exact (proj2 (deltaForce_zero_input Sample.TIMESTEP 0
                    Sample.traceless w w) H0 Ht).
Defined.

Lemma deltaForce_defined_after_update_witness :
  let u := mkVector2f 3 (- 4) in
  let w := mkVector2f 1 2 in
  (0 < Sample.CRIT_COMPRESS /\ Sample.CRIT_COMPRESS <= Sample.CRIT_STRETCH
   /\ svd_orthogonal Sample.svd (sample_tentative Sample.squeezed))
  /\ exists f : Vector2f,
       result (sample_deltaForce u w)
         (set_volume 2 (after sample_updateGradient Sample.squeezed))
       = Some f.
Proof.
  intros u w.
  assert (Hc : 0 < Sample.CRIT_COMPRESS) by apply sample_bounds.
  assert (Hcs : Sample.CRIT_COMPRESS <= Sample.CRIT_STRETCH)
    by apply sample_bounds.
  assert (Ho : svd_orthogonal Sample.svd (sample_tentative Sample.squeezed))
    by apply sample_svd_orthogonal.
  split; [exact (conj Hc (conj Hcs Ho)) |].
  exact (deltaForce_defined_after_update Sample.TIMESTEP
           Sample.CRIT_COMPRESS Sample.CRIT_STRETCH Sample.HARDENING
           Sample.MATRIX_EPSILON Sample.svd Sample.squeezed 2 u w Hc Hcs Ho).
Defined.
